(** * contest-maker-150: the contest-problem selection engine

    A shallow embedding of
      - backend/internal/domain/problem.go   (Difficulty, Weight, Problem)
      - backend/internal/domain/contest.go   (Contest, ContestProblem, IsExpired)
      - backend/internal/domain/errors.go    (the domain errors used here)
      - backend/internal/service/problem_service.go
          (calculateDistribution, randomSelect, SelectProblemsForContest)
      - backend/internal/service/contest_service.go (CreateContest)
      - backend/internal/repository/contest_repository.go
    followed by the properties of the selection engine. *)

From Stdlib Require Import ZArith QArith Qround Lia Sorted.
From stdpp Require Import gmap strings list fin_maps.

Local Open Scope string_scope.
Local Open Scope list_scope.
Local Open Scope Z_scope.

(** ** Go's [int] on a 64-bit platform *)

Module GoInt.

Definition int_min : Z := - 2 ^ 63.
Definition int_max : Z := 2 ^ 63 - 1.

(** Two's-complement wrap-around of a mathematical integer. *)
Definition wrap (z : Z) : Z := (z + 2 ^ 63) `mod` 2 ^ 64 - 2 ^ 63.

Definition add (x y : Z) : Z := wrap (x + y).
Definition sub (x y : Z) : Z := wrap (x - y).
Definition mul (x y : Z) : Z := wrap (x * y).
(** Go's [/] truncates toward zero. *)
Definition quo (x y : Z) : Z := wrap (Z.quot x y).

Definition in_range (z : Z) : Prop := int_min <= z <= int_max.

End GoInt.

(** [len(s)] of a slice, as a Go [int]. *)
Definition len {A} (l : list A) : Z := Z.of_nat (length l).

(** ** domain/problem.go *)

Definition UUID := N.

(** [type Difficulty string] *)
Definition Difficulty := string.

Definition DifficultyEasy : Difficulty := "Easy".
Definition DifficultyMedium : Difficulty := "Medium".
Definition DifficultyHard : Difficulty := "Hard".

Definition Weight (d : Difficulty) : Z :=
  if String.eqb d DifficultyEasy then 1
  else if String.eqb d DifficultyMedium then 2
  else if String.eqb d DifficultyHard then 3
  else 0.

Record Problem := mkProblem {
  p_ID : UUID;
  p_Title : string;
  p_Slug : string;
  p_Difficulty : Difficulty;
  p_Topics : list string;
  p_LeetCodeURL : string;
  p_NeetCodeURL : string;
  p_OrderIndex : Z
}.

(** ** domain/errors.go

    The sentinel errors of the selection and creation paths; every other
    [error] value reaching this code comes from the database layer. *)
Inductive error :=
| ErrNotEnoughProblems
| ErrActiveContestExists
| ErrContestNotFound
| ErrDatabase (msg : string).

(** ** service/problem_service.go: calculateDistribution *)

(** Reading a Go map: an absent key yields the zero value. *)
Definition at_int (m : gmap string Z) (k : string) : Z := default 0 (m !! k).
Definition at_pool (m : gmap string (list Problem)) (k : string) : list Problem :=
  default [] (m !! k).

Definition difficulties : list Difficulty :=
  [DifficultyEasy; DifficultyMedium; DifficultyHard].

(** The body of the loop that raises an empty tier to one problem. *)
Definition bumpTier (distribution : gmap string Z) (diff : Difficulty)
  : gmap string Z :=
  if at_int distribution diff =? 0 then <[diff := 1]> distribution
  else distribution.

Definition calculateDistribution (count : Z) : gmap string Z :=
  let distribution : gmap string Z := ∅ in
  let distribution :=
    if count <=? 3 then
      let distribution := <[DifficultyEasy := count]> distribution in
      if 2 <=? count then
        let distribution := <[DifficultyEasy := GoInt.sub count 1]> distribution in
        <[DifficultyMedium := 1]> distribution
      else distribution
    else if count <=? 5 then
      let distribution := <[DifficultyEasy := 2]> distribution in
      let distribution := <[DifficultyMedium := 2]> distribution in
      <[DifficultyHard := GoInt.sub count 4]> distribution
    else if count <=? 10 then
      let distribution :=
        <[DifficultyEasy := GoInt.quo (GoInt.mul count 3) 10]> distribution in
      let distribution :=
        <[DifficultyMedium := GoInt.quo (GoInt.mul count 4) 10]> distribution in
      <[DifficultyHard :=
          GoInt.sub (GoInt.sub count (at_int distribution DifficultyEasy))
                    (at_int distribution DifficultyMedium)]> distribution
    else
      let distribution := <[DifficultyEasy := GoInt.quo count 4]> distribution in
      let distribution := <[DifficultyMedium := GoInt.quo count 2]> distribution in
      <[DifficultyHard :=
          GoInt.sub (GoInt.sub count (at_int distribution DifficultyEasy))
                    (at_int distribution DifficultyMedium)]> distribution
  in
  if 3 <=? count then
    foldl bumpTier distribution difficulties
  else distribution.

(** The three counts of a distribution, read off the map. *)
Record Plan := mkPlan { easy : Z; medium : Z; hard : Z }.

Definition plan_of (distribution : gmap string Z) : Plan :=
  {| easy := at_int distribution DifficultyEasy;
     medium := at_int distribution DifficultyMedium;
     hard := at_int distribution DifficultyHard |}.

(** The policy table and the floor-enforcement pass as the design document
    words them (used only to compare with [calculateDistribution]). *)
Definition floorQ (q : Q) : Z := Qfloor q.

Definition spec_table (count : Z) : Plan :=
  if count <=? 3 then
    if count =? 1 then mkPlan count 0 0 else mkPlan (count - 1) 1 0
  else if count <=? 5 then mkPlan 2 2 (count - 4)
  else if count <=? 10 then
    let e := floorQ (inject_Z count * (3 # 10)) in
    let m := floorQ (inject_Z count * (4 # 10)) in
    mkPlan e m (count - e - m)
  else
    let e := floorQ (inject_Z count / inject_Z 4) in
    let m := floorQ (inject_Z count / inject_Z 2) in
    mkPlan e m (count - e - m).

Definition spec_bump (tier : Z) : Z := if tier =? 0 then 1 else tier.

Definition spec_floor_enforcement (count : Z) (p : Plan) : Plan :=
  if 3 <=? count
  then mkPlan (spec_bump (easy p)) (spec_bump (medium p)) (spec_bump (hard p))
  else p.

Definition planDistribution (count : Z) : Plan :=
  spec_floor_enforcement count (spec_table count).

(** Closed form of what [calculateDistribution] returns on a valid count. *)
Definition closed_form (count : Z) : Plan :=
  if count =? 1 then mkPlan 1 0 0
  else if count =? 2 then mkPlan 1 1 0
  else if count =? 3 then mkPlan 2 1 1
  else if count =? 4 then mkPlan 2 2 1
  else if count =? 5 then mkPlan 2 2 1
  else if count <=? 10 then
    mkPlan (count * 3 / 10) (count * 4 / 10)
           (count - count * 3 / 10 - count * 4 / 10)
  else mkPlan (count / 4) (count / 2) (count - count / 4 - count / 2).

(** ** math/rand

    The generator is an unknown stream of integers read one position at a
    time; [Intn n] reduces the value read into [0, n), which is all the
    callers rely on, so every sequence of draws the library can produce is
    the behaviour of some stream. *)
Record Rand := mkRand { rand_src : nat -> Z; rand_pos : nat }.

(** [Intn] panics when [n <= 0]; a panic is [None] throughout. *)
Definition Intn (r : Rand) (n : Z) : option (Z * Rand) :=
  if n <=? 0 then None
  else Some (rand_src r (rand_pos r) `mod` n,
             mkRand (rand_src r) (S (rand_pos r))).

(** ** Slices *)

(** [s[i]]: panics out of range. *)
Definition index {A} (s : list A) (i : Z) : option A :=
  if (0 <=? i) && (i <? len s) then s !! Z.to_nat i else None.

(** [s[i], s[j] = s[j], s[i]] *)
Definition swap {A} (s : list A) (i j : Z) : option (list A) :=
  match index s i, index s j with
  | Some a, Some b => Some (<[Z.to_nat j := a]> (<[Z.to_nat i := b]> s))
  | _, _ => None
  end.

(** [s[:n]]: panics unless [0 <= n <= len(s)]. *)
Definition slice_to {A} (s : list A) (n : Z) : option (list A) :=
  if (0 <=? n) && (n <=? len s) then Some (take (Z.to_nat n) s) else None.

(** [sort.Slice(s, less)]: the library promises a rearrangement of [s] that
    is ordered by [less] and no stability; it is modelled by the insertion
    sort the library runs on short slices, and the properties below use only
    the promise. *)
Fixpoint insert_by {A} (less : A -> A -> bool) (x : A) (l : list A) : list A :=
  match l with
  | [] => [x]
  | y :: l' => if less x y then x :: y :: l' else y :: insert_by less x l'
  end.

Definition sort_Slice {A} (less : A -> A -> bool) (s : list A) : list A :=
  foldl (fun sorted x => insert_by less x sorted) [] s.

(** ** service/problem_service.go: randomSelect *)

(** One iteration of the partial Fisher-Yates loop, at index [i]. *)
Definition shuffle_step (st : option (list Problem * Rand)) (i : Z)
  : option (list Problem * Rand) :=
  match st with
  | None => None
  | Some (shuffled, r) =>
      match Intn r (GoInt.sub (len shuffled) i) with
      | None => None
      | Some (v, r') =>
          let j := GoInt.add i v in
          match swap shuffled i j with
          | None => None
          | Some shuffled' => Some (shuffled', r')
          end
      end
  end.

Definition randomSelect (r : Rand) (problems : list Problem) (n : Z)
  : option (list Problem * Rand) :=
  if len problems <=? n then Some (problems, r)
  else
    let shuffled := problems in
    match foldl shuffle_step (Some (shuffled, r)) (seqZ 0 n) with
    | None => None
    | Some (shuffled, r') =>
        match slice_to shuffled n with
        | None => None
        | Some selected => Some (selected, r')
        end
    end.

(** ** service/problem_service.go: SelectProblemsForContest *)

(** [domain.ProblemRepository], as far as the selection uses it. *)
Record ProblemRepository := mkProblemRepository {
  FindUnsolvedByUserAndDifficulty :
    UUID -> Difficulty -> list Problem * option error
}.

Record difficultyResult := mkDifficultyResult {
  dr_difficulty : Difficulty;
  dr_problems : list Problem;
  dr_err : option error
}.

Definition fetchProblems (problemRepo : ProblemRepository) (userID : UUID)
    (diff : Difficulty) : difficultyResult :=
  let '(problems, err) :=
    FindUnsolvedByUserAndDifficulty problemRepo userID diff in
  {| dr_difficulty := diff; dr_problems := problems; dr_err := err |}.

(** The collecting loop over the result channel: a result carrying an error
    is logged and skipped. *)
Definition collectResults (results : list difficultyResult)
  : gmap string (list Problem) :=
  foldl (fun problemsByDifficulty result =>
           match dr_err result with
           | Some _ => problemsByDifficulty
           | None =>
               <[dr_difficulty result := dr_problems result]>
                 problemsByDifficulty
           end)
        ∅ results.

Record Selection := mkSelection {
  selectedProblems : list Problem;
  shortfall : Z;
  sel_rng : Rand
}.

(** The body of the loop over the tiers. *)
Definition selectTier (distribution : gmap string Z)
    (problemsByDifficulty : gmap string (list Problem))
    (st : option Selection) (diff : Difficulty) : option Selection :=
  match st with
  | None => None
  | Some st =>
      let needed := GoInt.add (at_int distribution diff) (shortfall st) in
      let available := at_pool problemsByDifficulty diff in
      if len available <? needed then
        Some {| selectedProblems := selectedProblems st ++ available;
                shortfall := GoInt.sub needed (len available);
                sel_rng := sel_rng st |}
      else
        match randomSelect (sel_rng st) available needed with
        | None => None
        | Some (selected, r') =>
            Some {| selectedProblems := selectedProblems st ++ selected;
                    shortfall := 0;
                    sel_rng := r' |}
        end
  end.

Definition selectByDistribution (distribution : gmap string Z)
    (problemsByDifficulty : gmap string (list Problem)) (r : Rand)
  : option Selection :=
  foldl (selectTier distribution problemsByDifficulty)
        (Some {| selectedProblems := []; shortfall := 0; sel_rng := r |})
        difficulties.

(** Comparison by an integer key, and the order it sorts into. *)
Definition lessBy {A} (key : A -> Z) (a b : A) : bool := key a <? key b.
Definition orderedBy {A} (key : A -> Z) (a b : A) : Prop := key a <= key b.

Definition lessByWeight (a b : Problem) : bool :=
  Weight (p_Difficulty a) <? Weight (p_Difficulty b).

(** The size check and the final sort. *)
Definition finishSelection (count : Z) (selectedProblems : list Problem)
  : list Problem * option error :=
  let sorted := (sort_Slice lessByWeight selectedProblems, None) in
  if len selectedProblems <? count then
    if len selectedProblems =? 0 then ([], Some ErrNotEnoughProblems)
    else sorted
  else sorted.

(** The tail of the function, from the distribution on. *)
Definition selectWith (distribution : gmap string Z)
    (problemsByDifficulty : gmap string (list Problem)) (count : Z) (r : Rand)
  : option ((list Problem * option error) * Rand) :=
  match selectByDistribution distribution problemsByDifficulty r with
  | None => None
  | Some st => Some (finishSelection count (selectedProblems st), sel_rng st)
  end.

(** The fan-out and the collection. [arrival] is the order in which the
    three workers deliver their results on the channel: some arrangement of
    [difficulties]. *)
Definition fetchAll (problemRepo : ProblemRepository)
    (arrival : list Difficulty) (userID : UUID)
  : gmap string (list Problem) :=
  collectResults (map (fetchProblems problemRepo userID) arrival).

(** What the collection keeps of one tier: the problems fetched, or nothing
    when the fetch reported an error. *)
Definition fetched (problemRepo : ProblemRepository) (userID : UUID)
    (diff : Difficulty) : list Problem :=
  match FindUnsolvedByUserAndDifficulty problemRepo userID diff with
  | (problems, None) => problems
  | (_, Some _) => []
  end.

Definition SelectProblemsForContest (problemRepo : ProblemRepository)
    (arrival : list Difficulty) (r : Rand) (userID : UUID) (count : Z)
  : option ((list Problem * option error) * Rand) :=
  let problemsByDifficulty := fetchAll problemRepo arrival userID in
  let distribution := calculateDistribution count in
  selectWith distribution problemsByDifficulty count r.

(** ** domain/contest.go *)

(** [time.Time] and [time.Duration], in nanoseconds. *)
Definition Time := Z.
Definition Minute : Z := 60 * 1000000000.

Definition ContestStatus := string.
Definition ContestStatusActive : ContestStatus := "active".
Definition ContestStatusCompleted : ContestStatus := "completed".
Definition ContestStatusAbandoned : ContestStatus := "abandoned".

Record ContestProblem := mkContestProblem {
  cp_ContestID : UUID;
  cp_ProblemID : UUID;
  cp_Order : Z;
  cp_IsCompleted : bool;
  cp_Problem : Problem
}.

(** The bookkeeping columns [CreatedAt] and [UpdatedAt] are maintained by
    the ORM and read by nothing here; they are left out. *)
Record Contest := mkContest {
  c_ID : UUID;
  c_UserID : UUID;
  c_DurationMinutes : Z;
  c_StartedAt : Time;
  c_EndedAt : option Time;
  c_Status : ContestStatus;
  c_ContestProblems : list ContestProblem
}.

Record CreateContestRequest := mkCreateContestRequest {
  ProblemCount : Z;
  DurationMinutes : Z
}.

(** [IsExpired], with the reading of [time.Now()] passed in. *)
Definition IsExpired (c : Contest) (now : Time) : bool :=
  if negb (String.eqb (c_Status c) ContestStatusActive) then false
  else
    let endTime := c_StartedAt c + GoInt.mul (c_DurationMinutes c) Minute in
    now >? endTime.

(** ** The world a request runs in

    The two tables the contest repository works on, and the sources of what
    the code cannot decide by itself: whether a repository call fails in the
    database, what the clock reads, which identifier the database generates
    for a new row, and the service's random generator. *)
Record World := mkWorld {
  w_contests : list Contest;
  w_contest_problems : list ContestProblem;
  w_faults : nat -> option string;
  w_calls : nat;
  w_clock : nat -> Time;
  w_reads : nat;
  w_uuids : nat -> UUID;
  w_made : nat;
  w_rng : Rand
}.

Definition set_tables (w : World) (cs : list Contest)
    (cps : list ContestProblem) : World :=
  mkWorld cs cps (w_faults w) (w_calls w) (w_clock w) (w_reads w)
          (w_uuids w) (w_made w) (w_rng w).

Definition set_rng (w : World) (r : Rand) : World :=
  mkWorld (w_contests w) (w_contest_problems w) (w_faults w) (w_calls w)
          (w_clock w) (w_reads w) (w_uuids w) (w_made w) r.

(** [time.Now()] *)
Definition Now (w : World) : Time * World :=
  (w_clock w (w_reads w),
   mkWorld (w_contests w) (w_contest_problems w) (w_faults w) (w_calls w)
           (w_clock w) (S (w_reads w)) (w_uuids w) (w_made w) (w_rng w)).

(** The outcome of the next repository call in the database. *)
Definition db_call (w : World) : option error * World :=
  (ErrDatabase <$> w_faults w (w_calls w),
   mkWorld (w_contests w) (w_contest_problems w) (w_faults w) (S (w_calls w))
           (w_clock w) (w_reads w) (w_uuids w) (w_made w) (w_rng w)).

(** [gen_random_uuid()], the column default of [contests.id]. *)
Definition gen_random_uuid (w : World) : UUID * World :=
  (w_uuids w (w_made w),
   mkWorld (w_contests w) (w_contest_problems w) (w_faults w) (w_calls w)
           (w_clock w) (w_reads w) (w_uuids w) (S (w_made w)) (w_rng w)).

(** ** repository/contest_repository.go *)

(** [ORDER BY id LIMIT 1] over the matching rows. *)
Definition first_by_id (rows : list Contest) : option Contest :=
  foldl (fun best c =>
           match best with
           | None => Some c
           | Some b => if (c_ID c <? c_ID b)%N then Some c else Some b
           end)
        None rows.

(** The preloaded association, [ORDER BY contest_problems.order ASC]. *)
Definition preloadProblems (w : World) (c : Contest) : Contest :=
  mkContest (c_ID c) (c_UserID c) (c_DurationMinutes c) (c_StartedAt c)
            (c_EndedAt c) (c_Status c)
            (sort_Slice (fun a b => cp_Order a <? cp_Order b)
               (filter (fun cp => cp_ContestID cp = c_ID c)
                       (w_contest_problems w))).

(** [WHERE user_id = ? AND status = 'active'], then [First]. *)
Definition activeRow (userID : UUID) (w : World) : option Contest :=
  first_by_id
    (filter (fun c => c_UserID c = userID /\ c_Status c = ContestStatusActive)
            (w_contests w)).

Definition FindActiveByUserID (userID : UUID) (w : World)
  : (option Contest * option error) * World :=
  let '(fault, w) := db_call w in
  match fault with
  | Some e => ((None, Some e), w)
  | None =>
      match activeRow userID w with
      | None => ((None, None), w)
      | Some c => ((Some (preloadProblems w c), None), w)
      end
  end.

(** The row of a contest: its columns, without the association. *)
Definition row_of (c : Contest) : Contest :=
  mkContest (c_ID c) (c_UserID c) (c_DurationMinutes c) (c_StartedAt c)
            (c_EndedAt c) (c_Status c) [].

(** [Update]: [db.Save] writes all columns of the row with that key. *)
Definition Update (contest : Contest) (w : World) : option error * World :=
  let '(fault, w) := db_call w in
  match fault with
  | Some e => (Some e, w)
  | None =>
      (None,
       set_tables w
         (map (fun c => if decide (c_ID c = c_ID contest)
                        then row_of contest else c)
              (w_contests w))
         (w_contest_problems w))
  end.

(** [Create] inserts the row of the caller's struct. The columns declared
    with a default take it when the struct holds the zero value: a zero
    [ID] is replaced by the key the database generates (taken as new) and an
    empty [Status] by active, and both are written back into the struct. A
    key given by the caller is inserted as it is, and the insert fails on
    the primary key when a contest already carries it. The struct has no
    associations attached where the program calls [Create]; their insert is
    not part of this model. *)
Definition Create (contest : Contest) (w : World)
  : (Contest * option error) * World :=
  let '(fault, w) := db_call w in
  match fault with
  | Some e => ((contest, Some e), w)
  | None =>
      let status :=
        if String.eqb (c_Status contest) "" then ContestStatusActive
        else c_Status contest in
      if (c_ID contest =? 0)%N then
        let '(id, w) := gen_random_uuid w in
        let contest :=
          mkContest id (c_UserID contest) (c_DurationMinutes contest)
                    (c_StartedAt contest) (c_EndedAt contest)
                    status (c_ContestProblems contest) in
        ((contest, None),
         set_tables w (w_contests w ++ [row_of contest])
                    (w_contest_problems w))
      else if bool_decide (c_ID contest ∈ c_ID <$> w_contests w) then
        ((contest,
          Some (ErrDatabase
                  "duplicate key value violates unique constraint")), w)
      else
        let contest :=
          mkContest (c_ID contest) (c_UserID contest)
                    (c_DurationMinutes contest) (c_StartedAt contest)
                    (c_EndedAt contest) status (c_ContestProblems contest) in
        ((contest, None),
         set_tables w (w_contests w ++ [row_of contest])
                    (w_contest_problems w))
  end.

(** [AddProblems] stamps the contest key on the elements of the caller's
    slice, in place, before the insert; the slice after the call is
    returned with the error. *)
Definition AddProblems (contestID : UUID) (problems : list ContestProblem)
    (w : World) : (list ContestProblem * option error) * World :=
  let problems :=
    map (fun cp => mkContestProblem contestID (cp_ProblemID cp) (cp_Order cp)
                     (cp_IsCompleted cp) (cp_Problem cp)) problems in
  let '(fault, w) := db_call w in
  match fault with
  | Some e => ((problems, Some e), w)
  | None =>
      ((problems, None),
       set_tables w (w_contests w) (w_contest_problems w ++ problems))
  end.

(** [Delete]: both deletions in one transaction. *)
Definition Delete (id : UUID) (w : World) : option error * World :=
  let '(fault, w) := db_call w in
  match fault with
  | Some e => (Some e, w)
  | None =>
      if bool_decide (id ∈ map c_ID (w_contests w)) then
        (None,
         set_tables w
           (filter (fun c => c_ID c <> id) (w_contests w))
           (filter (fun cp => cp_ContestID cp <> id) (w_contest_problems w)))
      else (Some ErrContestNotFound, w)
  end.

(** ** service/contest_service.go: CreateContest *)

(** The rows built from the selected problems, positions counted from 1. *)
Definition contestProblemsOf (contestID : UUID) (problems : list Problem)
  : list ContestProblem :=
  imap (fun i p =>
          {| cp_ContestID := contestID;
             cp_ProblemID := p_ID p;
             cp_Order := GoInt.add (Z.of_nat i) 1;
             cp_IsCompleted := false;
             cp_Problem := p |})
       problems.

(** The check for an active contest: the error that ends the request, if
    any, and the world afterwards. *)
Definition checkActiveContest (userID : UUID) (w : World)
  : option error * World :=
  let '((activeContest, err), w) := FindActiveByUserID userID w in
  match err with
  | Some e => (Some e, w)
  | None =>
      match activeContest with
      | None => (None, w)
      | Some activeContest =>
          let '(t, w) := Now w in
          if IsExpired activeContest t then
            let '(now, w) := Now w in
            let activeContest :=
              mkContest (c_ID activeContest) (c_UserID activeContest)
                        (c_DurationMinutes activeContest)
                        (c_StartedAt activeContest)
                        (Some now) ContestStatusCompleted
                        (c_ContestProblems activeContest) in
            (* a failing update is logged and otherwise ignored *)
            let '(_, w) := Update activeContest w in
            (None, w)
          else (Some ErrActiveContestExists, w)
      end
  end.

(** Selection, creation and the problem rows. [None] is a panic. *)
Definition createContest (problemRepo : ProblemRepository)
    (arrival : list Difficulty) (userID : UUID) (req : CreateContestRequest)
    (w : World) : option ((option Contest * option error) * World) :=
  match SelectProblemsForContest problemRepo arrival (w_rng w) userID
          (ProblemCount req) with
  | None => None
  | Some ((problems, err), r) =>
      let w := set_rng w r in
      match err with
      | Some e => Some ((None, Some e), w)
      | None =>
          let '(startedAt, w) := Now w in
          let contest :=
            {| c_ID := 0%N;
               c_UserID := userID;
               c_DurationMinutes := DurationMinutes req;
               c_StartedAt := startedAt;
               c_EndedAt := None;
               c_Status := ContestStatusActive;
               c_ContestProblems := [] |} in
          let '((contest, err), w) := Create contest w in
          match err with
          | Some e => Some ((None, Some e), w)
          | None =>
              let contestProblems :=
                contestProblemsOf (c_ID contest) problems in
              let '((contestProblems, err), w) :=
                AddProblems (c_ID contest) contestProblems w in
              match err with
              | Some e =>
                  let '(_, w) := Delete (c_ID contest) w in
                  Some ((None, Some e), w)
              | None =>
                  let contest :=
                    mkContest (c_ID contest) (c_UserID contest)
                              (c_DurationMinutes contest)
                              (c_StartedAt contest) (c_EndedAt contest)
                              (c_Status contest) contestProblems in
                  Some ((Some contest, None), w)
              end
          end
      end
  end.

Definition CreateContest (problemRepo : ProblemRepository)
    (arrival : list Difficulty) (userID : UUID) (req : CreateContestRequest)
    (w : World) : option ((option Contest * option error) * World) :=
  let '(err, w) := checkActiveContest userID w in
  match err with
  | Some e => Some ((None, Some e), w)
  | None => createContest problemRepo arrival userID req w
  end.

(** ** Inputs the code can receive *)

(** A slice is never longer than the largest [int]. *)
Definition fits {A} (s : list A) : Prop := len s <= GoInt.int_max.

Definition pools_fit (problemsByDifficulty : gmap string (list Problem))
  : Prop :=
  Forall (fun diff => fits (at_pool problemsByDifficulty diff)) difficulties.

(** A requested count that passed validation. *)
Definition valid_count (count : Z) : Prop := 1 <= count <= GoInt.int_max.

(** A distribution whose targets are counts and add up without overflow. *)
Definition valid_distribution (distribution : gmap string Z) : Prop :=
  0 <= at_int distribution DifficultyEasy /\
  0 <= at_int distribution DifficultyMedium /\
  0 <= at_int distribution DifficultyHard /\
  at_int distribution DifficultyEasy + at_int distribution DifficultyMedium
    + at_int distribution DifficultyHard <= GoInt.int_max.

(** The repository hands out slices that fit, for the three tiers. *)
Definition repo_fits (problemRepo : ProblemRepository) (userID : UUID) : Prop :=
  Forall (fun diff =>
            fits (fst (FindUnsolvedByUserAndDifficulty problemRepo userID diff)))
         difficulties.

(** Pools as the repository fills them: every problem carries the difficulty
    of the tier it was fetched for. *)
Definition tiered (problemsByDifficulty : gmap string (list Problem)) : Prop :=
  Forall (fun diff =>
            Forall (fun p => p_Difficulty p = diff)
                   (at_pool problemsByDifficulty diff))
         difficulties.

(** How many problems of a list carry a given difficulty. *)
Definition countOf (diff : Difficulty) (l : list Problem) : Z :=
  len (filter (fun p => p_Difficulty p = diff) l).

(** ** Scenarios used to run the definitions *)

Definition sampleProblem (id : N) (diff : Difficulty) : Problem :=
  {| p_ID := id; p_Title := "t"; p_Slug := "s"; p_Difficulty := diff;
     p_Topics := []; p_LeetCodeURL := "l"; p_NeetCodeURL := "n";
     p_OrderIndex := Z.of_N id |}.

Definition samplePool (first : N) (n : nat) (diff : Difficulty)
  : list Problem :=
  map (fun k => sampleProblem (first + N.of_nat k) diff) (seq 0 n).

Definition sampleRand : Rand := mkRand (fun k => Z.of_nat k * 7 + 3) 0.

Definition samplePools (e m h : nat) : gmap string (list Problem) :=
  <[DifficultyHard := samplePool 200 h DifficultyHard]>
    (<[DifficultyMedium := samplePool 100 m DifficultyMedium]>
       (<[DifficultyEasy := samplePool 0 e DifficultyEasy]> ∅)).

(** A repository whose three fetches succeed with the pools above. *)
Definition sampleRepo (e m h : nat) : ProblemRepository :=
  {| FindUnsolvedByUserAndDifficulty := fun _ diff =>
       (at_pool (samplePools e m h) diff, None) |}.

(** A repository whose Easy fetch fails while Medium and Hard each return
    one problem. *)
Definition failingRepo : ProblemRepository :=
  {| FindUnsolvedByUserAndDifficulty := fun _ diff =>
       if String.eqb diff DifficultyEasy
       then ([], Some (ErrDatabase "connection refused"))
       else (at_pool (samplePools 0 1 1) diff, None) |}.

(** A world in which user 7 started a 30 minute contest at time 0, no
    repository call fails, and the clock reads [now] and then advances by
    one nanosecond per reading. *)
Definition sampleContest : Contest :=
  {| c_ID := 40%N; c_UserID := 7%N; c_DurationMinutes := 30;
     c_StartedAt := 0; c_EndedAt := None; c_Status := ContestStatusActive;
     c_ContestProblems := [] |}.

Definition sampleWorld (now : Time) : World :=
  {| w_contests := [sampleContest];
     w_contest_problems := [];
     w_faults := fun _ => None;
     w_calls := 0;
     w_clock := fun k => now + Z.of_nat k;
     w_reads := 0;
     w_uuids := fun k => (41 + N.of_nat k)%N;
     w_made := 0;
     w_rng := sampleRand |}.


Definition sampleRequest : CreateContestRequest :=
  {| ProblemCount := 5; DurationMinutes := 45 |}.

Definition sampleDistribution (e m h : Z) : gmap string Z :=
  <[DifficultyHard := h]>
    (<[DifficultyMedium := m]> (<[DifficultyEasy := e]> ∅)).

(** ** service/problem_service.go: GetProblemStats *)

Record ProblemStats := mkProblemStats {
  Total : Z;
  ByDifficulty : gmap string Z;
  ByTopic : gmap string Z
}.

(** [m[k]++] *)
Definition increment (m : gmap string Z) (k : string) : gmap string Z :=
  <[k := GoInt.add (at_int m k) 1]> m.

(** The body of the loop over the problems. *)
Definition countProblem (stats : ProblemStats) (p : Problem) : ProblemStats :=
  {| Total := Total stats;
     ByDifficulty := increment (ByDifficulty stats) (p_Difficulty p);
     ByTopic := foldl increment (ByTopic stats) (p_Topics p) |}.

(** [findAll] is what [problemRepo.FindAll()] returned. *)
Definition GetProblemStats (findAll : list Problem * option error)
  : option ProblemStats * option error :=
  let '(problems, err) := findAll in
  match err with
  | Some e => (None, Some e)
  | None =>
      let stats :=
        {| Total := len problems; ByDifficulty := ∅; ByTopic := ∅ |} in
      (Some (foldl countProblem stats problems), None)
  end.

(** How often a key occurs in a list of keys. *)
Definition occurrences (k : string) (ks : list string) : Z :=
  len (filter (fun k' => k' = k) ks).

(** ** domain/submission.go and the problem repository

    [FindUnsolvedByUserAndDifficulty] of repository/user_repository.go, on
    the two tables it queries. *)

Record Submission := mkSubmission {
  sub_ID : UUID;
  sub_UserID : UUID;
  sub_ProblemID : UUID;
  sub_ContestID : option UUID;
  sub_SolvedAt : Time
}.

(** The tables, the value [RANDOM()] takes for each candidate row, and the
    query (one per difficulty) that fails in the database, if any. *)
Record ProblemDB := mkProblemDB {
  pdb_problems : list Problem;
  pdb_submissions : list Submission;
  pdb_random : nat -> Z;
  pdb_fault : Difficulty -> option string
}.

(** [SELECT problem_id FROM submissions WHERE user_id = ?] *)
Definition solvedBy (submissions : list Submission) (userID : UUID)
  : list UUID :=
  sub_ProblemID <$> filter (fun s => sub_UserID s = userID) submissions.

(** [ORDER BY RANDOM()]: each row gets a random value and the rows are
    sorted by it; only the comparison of the values matters. *)
Definition orderByRandom (random : nat -> Z) (rows : list Problem)
  : list Problem :=
  snd <$> sort_Slice (lessBy fst) (imap (fun i p => (random i, p)) rows).

Definition dbFindUnsolvedByUserAndDifficulty (db : ProblemDB)
    (userID : UUID) (difficulty : Difficulty) : list Problem * option error :=
  match pdb_fault db difficulty with
  | Some msg => ([], Some (ErrDatabase msg))
  | None =>
      (orderByRandom (pdb_random db)
         (filter (fun p => (p_ID p ∉ solvedBy (pdb_submissions db) userID)
                           /\ p_Difficulty p = difficulty)
                 (pdb_problems db)),
       None)
  end.

Definition dbProblemRepository (db : ProblemDB) : ProblemRepository :=
  {| FindUnsolvedByUserAndDifficulty := dbFindUnsolvedByUserAndDifficulty db |}.

(** ** The rest of repository/contest_repository.go *)

(** The further sentinel errors of domain/errors.go that the lifecycle
    operations return; [Err e] is one of the errors above. *)
Inductive lifecycleError :=
| ErrForbidden
| ErrContestNotActive
| ErrContestExpired
| ErrProblemNotInContest
| Err (e : error).

(** [FindByID]: the row alone, without its problems. *)
Definition FindByID (id : UUID) (w : World)
  : (option Contest * option error) * World :=
  let '(fault, w) := db_call w in
  match fault with
  | Some e => ((None, Some e), w)
  | None =>
      match first_by_id (filter (fun c => c_ID c = id) (w_contests w)) with
      | None => ((None, Some ErrContestNotFound), w)
      | Some c => ((Some (row_of c), None), w)
      end
  end.

Definition FindByIDWithProblems (id : UUID) (w : World)
  : (option Contest * option error) * World :=
  let '(fault, w) := db_call w in
  match fault with
  | Some e => ((None, Some e), w)
  | None =>
      match first_by_id (filter (fun c => c_ID c = id) (w_contests w)) with
      | None => ((None, Some ErrContestNotFound), w)
      | Some c => ((Some (preloadProblems w c), None), w)
      end
  end.

(** [UpdateProblemStatus]: an update that matches no row is reported. *)
Definition UpdateProblemStatus (contestID problemID : UUID)
    (isCompleted : bool) (w : World) : option lifecycleError * World :=
  let '(fault, w) := db_call w in
  match fault with
  | Some e => (Some (Err e), w)
  | None =>
      let rowsAffected :=
        len (filter (fun cp => cp_ContestID cp = contestID
                               /\ cp_ProblemID cp = problemID)
                    (w_contest_problems w)) in
      if rowsAffected =? 0 then (Some ErrProblemNotInContest, w)
      else
        (None,
         set_tables w (w_contests w)
           (map (fun cp =>
                   if decide (cp_ContestID cp = contestID
                              /\ cp_ProblemID cp = problemID)
                   then mkContestProblem (cp_ContestID cp) (cp_ProblemID cp)
                          (cp_Order cp) isCompleted (cp_Problem cp)
                   else cp)
                (w_contest_problems w)))
  end.

(** ** repository/submission_repository.go

    The submissions table beside the world of the contest repository. *)
Record Store := mkStore {
  st_world : World;
  st_submissions : list Submission
}.

(** [ORDER BY id LIMIT 1] over the matching submissions. *)
Definition first_submission (rows : list Submission) : option Submission :=
  foldl (fun best s =>
           match best with
           | None => Some s
           | Some b => if (sub_ID s <? sub_ID b)%N then Some s else Some b
           end)
        None rows.

Definition FindByUserAndProblem (userID problemID : UUID) (st : Store)
  : (option Submission * option error) * Store :=
  let '(fault, w) := db_call (st_world st) in
  let st := mkStore w (st_submissions st) in
  match fault with
  | Some e => ((None, Some e), st)
  | None =>
      (first_submission
         (filter (fun s => sub_UserID s = userID /\ sub_ProblemID s = problemID)
                 (st_submissions st)),
       None, st)
  end.

Definition CreateSubmission (submission : Submission) (st : Store)
  : option error * Store :=
  let '(fault, w) := db_call (st_world st) in
  match fault with
  | Some e => (Some e, mkStore w (st_submissions st))
  | None =>
      let '(id, w) := gen_random_uuid w in
      (None,
       mkStore w
         (st_submissions st ++
          [mkSubmission id (sub_UserID submission) (sub_ProblemID submission)
             (sub_ContestID submission) (sub_SolvedAt submission)]))
  end.

(** ** The rest of service/contest_service.go *)

(** The block shared by [GetContestByID] and [GetActiveContest]: an expired
    contest is completed on the way out. *)
Definition completeIfExpired (contest : Contest) (w : World)
  : Contest * World :=
  let '(t, w) := Now w in
  if IsExpired contest t then
    let '(now, w) := Now w in
    let contest :=
      mkContest (c_ID contest) (c_UserID contest) (c_DurationMinutes contest)
                (c_StartedAt contest) (Some now) ContestStatusCompleted
                (c_ContestProblems contest) in
    (* a failing update is logged and otherwise ignored *)
    let '(_, w) := Update contest w in
    (contest, w)
  else (contest, w).

(** [None] is the nil-pointer panic on a repository answering neither a
    contest nor an error. *)
Definition GetContestByID (contestID : UUID) (w : World)
  : option ((option Contest * option error) * World) :=
  let '((contest, err), w) := FindByIDWithProblems contestID w in
  match err with
  | Some e => Some ((None, Some e), w)
  | None =>
      match contest with
      | None => None
      | Some contest =>
          let '(contest, w) := completeIfExpired contest w in
          Some ((Some contest, None), w)
      end
  end.

Definition GetActiveContest (userID : UUID) (w : World)
  : (option Contest * option error) * World :=
  let '((contest, err), w) := FindActiveByUserID userID w in
  match err with
  | Some e => ((None, Some e), w)
  | None =>
      match contest with
      | None => ((None, None), w)
      | Some contest =>
          let '(contest, w) := completeIfExpired contest w in
          ((Some contest, None), w)
      end
  end.

(** [CompleteContest] and [AbandonContest] differ in the status they set. *)
Definition endContest (status : ContestStatus) (userID contestID : UUID)
    (w : World) : option (option lifecycleError * World) :=
  let '((contest, err), w) := FindByID contestID w in
  match err with
  | Some e => Some (Some (Err e), w)
  | None =>
      match contest with
      | None => None
      | Some contest =>
          if negb (bool_decide (c_UserID contest = userID))
          then Some (Some ErrForbidden, w)
          else if negb (String.eqb (c_Status contest) ContestStatusActive)
          then Some (Some ErrContestNotActive, w)
          else
            let '(now, w) := Now w in
            let contest :=
              mkContest (c_ID contest) (c_UserID contest)
                        (c_DurationMinutes contest) (c_StartedAt contest)
                        (Some now) status (c_ContestProblems contest) in
            let '(err, w) := Update contest w in
            Some (Err <$> err, w)
      end
  end.

Definition CompleteContest : UUID -> UUID -> World ->
                             option (option lifecycleError * World) :=
  endContest ContestStatusCompleted.

Definition AbandonContest : UUID -> UUID -> World ->
                            option (option lifecycleError * World) :=
  endContest ContestStatusAbandoned.

Definition MarkProblemComplete (userID contestID problemID : UUID)
    (isCompleted : bool) (st : Store)
  : option (option lifecycleError * Store) :=
  let submissions := st_submissions st in
  let '((contest, err), w) := FindByID contestID (st_world st) in
  match err with
  | Some e => Some (Some (Err e), mkStore w submissions)
  | None =>
      match contest with
      | None => None
      | Some contest =>
          if negb (bool_decide (c_UserID contest = userID))
          then Some (Some ErrForbidden, mkStore w submissions)
          else if negb (String.eqb (c_Status contest) ContestStatusActive)
          then Some (Some ErrContestNotActive, mkStore w submissions)
          else
            let '(t, w) := Now w in
            if IsExpired contest t
            then Some (Some ErrContestExpired, mkStore w submissions)
            else
              let '(err, w) :=
                UpdateProblemStatus contestID problemID isCompleted w in
              match err with
              | Some e => Some (Some e, mkStore w submissions)
              | None =>
                  let st := mkStore w submissions in
                  if isCompleted then
                    (* an error of the lookup is logged; [existing] is then nil *)
                    let '((existing, _), st) :=
                      FindByUserAndProblem userID problemID st in
                    match existing with
                    | Some _ => Some (None, st)
                    | None =>
                        let '(solvedAt, w) := Now (st_world st) in
                        let submission :=
                          {| sub_ID := 0%N; sub_UserID := userID;
                             sub_ProblemID := problemID;
                             sub_ContestID := Some contestID;
                             sub_SolvedAt := solvedAt |} in
                        (* an error of the insert is logged *)
                        let '(_, st) :=
                          CreateSubmission submission
                            (mkStore w (st_submissions st)) in
                        Some (None, st)
                    end
                  else Some (None, st)
              end
      end
  end.

(** ** Further inputs and scenarios *)

(** The identifier the database will generate next is not in use. *)
Definition next_id_fresh (w : World) : Prop :=
  (w_uuids w (w_made w) ∉ c_ID <$> w_contests w) /\
  (w_uuids w (w_made w) ∉ cp_ContestID <$> w_contest_problems w).

(** A store in which user 7 runs contest 40 with one Medium problem, and
    has no submission yet. *)
Definition sampleStore : Store :=
  {| st_world :=
       {| w_contests := [sampleContest];
          w_contest_problems :=
            [mkContestProblem 40%N 100%N 1 false
               (sampleProblem 100 DifficultyMedium)];
          w_faults := fun _ => None;
          w_calls := 0;
          w_clock := fun k => 5 + Z.of_nat k;
          w_reads := 0;
          w_uuids := fun k => (900 + N.of_nat k)%N;
          w_made := 0;
          w_rng := sampleRand |};
     st_submissions := [] |}.

Definition sampleProblemDB : ProblemDB :=
  {| pdb_problems :=
       samplePool 0 3 DifficultyEasy ++ samplePool 100 3 DifficultyMedium
       ++ samplePool 200 3 DifficultyHard;
     pdb_submissions :=
       [mkSubmission 900%N 7%N 1%N None 5;
        mkSubmission 901%N 7%N 100%N (Some 40%N) 6;
        mkSubmission 902%N 8%N 2%N None 7];
     pdb_random := fun k => (Z.of_nat k * 5 + 2) `mod` 7;
     pdb_fault := fun _ => None |}.

(** * Properties *)

(** ** Machine integers *)

Lemma wrap_id z : GoInt.in_range z -> GoInt.wrap z = z.
Proof.
  unfold GoInt.in_range, GoInt.int_min, GoInt.int_max, GoInt.wrap. intros H.
  rewrite Z.mod_small; lia.
Qed.

Lemma int_max_eq : GoInt.int_max = 9223372036854775807.
Proof. reflexivity. Qed.

Lemma int_min_eq : GoInt.int_min = -9223372036854775808.
Proof. reflexivity. Qed.

Lemma add_exact x y :
  GoInt.int_min <= x + y <= GoInt.int_max -> GoInt.add x y = x + y.
Proof. intros. apply wrap_id. exact H. Qed.

Lemma sub_exact x y :
  GoInt.int_min <= x - y <= GoInt.int_max -> GoInt.sub x y = x - y.
Proof. intros. apply wrap_id. exact H. Qed.

Lemma quo_exact x y :
  0 <= x <= GoInt.int_max -> 0 < y -> GoInt.quo x y = x / y.
Proof.
  intros Hx Hy. unfold GoInt.quo.
  rewrite Z.quot_div_nonneg by lia.
  apply wrap_id. split.
  - rewrite int_min_eq. pose proof (Z.div_pos x y). lia.
  - pose proof (Z.div_le_upper_bound x y GoInt.int_max). nia.
Qed.

Ltac int_bounds := rewrite ?int_max_eq, ?int_min_eq in *.

(** ** The distribution *)

Lemma at_int_insert_eq (m : gmap string Z) k v : at_int (<[k := v]> m) k = v.
Proof. unfold at_int. by rewrite lookup_insert_eq. Qed.

Lemma at_int_insert_ne (m : gmap string Z) k k' v :
  k <> k' -> at_int (<[k := v]> m) k' = at_int m k'.
Proof. intros. unfold at_int. by rewrite lookup_insert_ne. Qed.

Lemma bump_nothing (m : gmap string Z) :
  at_int m DifficultyEasy <> 0 ->
  at_int m DifficultyMedium <> 0 ->
  at_int m DifficultyHard <> 0 ->
  foldl bumpTier m difficulties = m.
Proof.
  intros He Hm Hh. unfold difficulties, bumpTier. cbn [foldl].
  apply Z.eqb_neq in He, Hm, Hh. by rewrite He, Hm, Hh.
Qed.

Lemma calculateDistribution_small count :
  1 <= count <= 10 -> plan_of (calculateDistribution count) = closed_form count.
Proof.
  intros H.
  assert (count = 1 \/ count = 2 \/ count = 3 \/ count = 4 \/ count = 5 \/
          count = 6 \/ count = 7 \/ count = 8 \/ count = 9 \/ count = 10)
    as Hc by lia.
  repeat (destruct Hc as [-> | Hc]); try subst count; vm_compute; reflexivity.
Qed.

Lemma calculateDistribution_large count :
  10 < count <= GoInt.int_max ->
  plan_of (calculateDistribution count) = closed_form count.
Proof.
  intros H.
  assert (Hq4 : GoInt.quo count 4 = count / 4) by (apply quo_exact; lia).
  assert (Hq2 : GoInt.quo count 2 = count / 2) by (apply quo_exact; lia).
  pose proof (Z.div_mod count 4 ltac:(lia)) as D4.
  pose proof (Z.mod_pos_bound count 4 ltac:(lia)) as B4.
  pose proof (Z.div_mod count 2 ltac:(lia)) as D2.
  pose proof (Z.mod_pos_bound count 2 ltac:(lia)) as B2.
  unfold calculateDistribution, closed_form.
  repeat match goal with
         | |- context [?a <=? ?b] => destruct (Z.leb_spec a b); try lia
         | |- context [?a =? ?b] => destruct (Z.eqb_spec a b); try lia
         end.
  rewrite at_int_insert_eq, at_int_insert_ne, at_int_insert_eq by done.
  rewrite Hq4, Hq2.
  assert (Hs : GoInt.sub (GoInt.sub count (count / 4)) (count / 2)
               = count - count / 4 - count / 2).
  { rewrite (sub_exact count) by (int_bounds; lia).
    apply sub_exact. int_bounds. lia. }
  rewrite Hs.
  rewrite bump_nothing.
  - unfold plan_of.
    rewrite at_int_insert_eq.
    rewrite !(at_int_insert_ne _ DifficultyHard) by done.
    rewrite at_int_insert_eq.
    rewrite (at_int_insert_ne _ DifficultyMedium) by done.
    rewrite at_int_insert_eq. reflexivity.
  - rewrite !(at_int_insert_ne _ DifficultyHard) by done.
    rewrite (at_int_insert_ne _ DifficultyMedium) by done.
    rewrite at_int_insert_eq. lia.
  - rewrite !(at_int_insert_ne _ DifficultyHard) by done.
    rewrite at_int_insert_eq. lia.
  - rewrite at_int_insert_eq. lia.
Qed.

Lemma calculateDistribution_closed count :
  valid_count count ->
  plan_of (calculateDistribution count) = closed_form count.
Proof.
  intros [H1 H2]. destruct (Z_le_gt_dec count 10).
  - apply calculateDistribution_small. lia.
  - apply calculateDistribution_large. lia.
Qed.

Lemma floorQ_scaled count (k : Z) :
  floorQ (inject_Z count * (k # 10)) = count * k / 10.
Proof. reflexivity. Qed.

Lemma floorQ_ratio count (d : positive) :
  floorQ (inject_Z count / inject_Z (Z.pos d)) = count / Z.pos d.
Proof.
  unfold floorQ, Qdiv, Qinv, Qmult, inject_Z. cbn.
  by rewrite Z.mul_1_r.
Qed.

Lemma closed_form_planDistribution count :
  1 <= count -> closed_form count = planDistribution count.
Proof.
  intros H. destruct (Z_le_gt_dec count 10) as [Hs | Hl].
  - assert (count = 1 \/ count = 2 \/ count = 3 \/ count = 4 \/ count = 5 \/
            count = 6 \/ count = 7 \/ count = 8 \/ count = 9 \/ count = 10)
      as Hc by lia.
    repeat (destruct Hc as [-> | Hc]); try subst count; vm_compute; reflexivity.
  - pose proof (Z.div_mod count 4 ltac:(lia)) as D4.
    pose proof (Z.mod_pos_bound count 4 ltac:(lia)) as B4.
    pose proof (Z.div_mod count 2 ltac:(lia)) as D2.
    pose proof (Z.mod_pos_bound count 2 ltac:(lia)) as B2.
    unfold closed_form, planDistribution, spec_table, spec_floor_enforcement.
    rewrite (floorQ_ratio count 4), (floorQ_ratio count 2).
    repeat match goal with
           | |- context [?a <=? ?b] => destruct (Z.leb_spec a b); try lia
           | |- context [?a =? ?b] => destruct (Z.eqb_spec a b); try lia
           end.
    cbn [easy medium hard]. unfold spec_bump.
    repeat match goal with
           | |- context [?a =? ?b] => destruct (Z.eqb_spec a b); try lia
           end.
    reflexivity.
Qed.

Lemma closed_form_sum count :
  1 <= count ->
  let p := closed_form count in
  0 <= easy p /\ 0 <= medium p /\ 0 <= hard p /\
  easy p + medium p + hard p
    = if (count =? 3) || (count =? 4) then count + 1 else count.
Proof.
  intros H. destruct (Z_le_gt_dec count 10) as [Hs | Hl].
  - assert (count = 1 \/ count = 2 \/ count = 3 \/ count = 4 \/ count = 5 \/
            count = 6 \/ count = 7 \/ count = 8 \/ count = 9 \/ count = 10)
      as Hc by lia.
    repeat (destruct Hc as [-> | Hc]); try subst count; vm_compute;
      repeat split; congruence.
  - pose proof (Z.div_mod count 4 ltac:(lia)) as D4.
    pose proof (Z.mod_pos_bound count 4 ltac:(lia)) as B4.
    pose proof (Z.div_mod count 2 ltac:(lia)) as D2.
    pose proof (Z.mod_pos_bound count 2 ltac:(lia)) as B2.
    unfold closed_form.
    repeat match goal with
           | |- context [?a <=? ?b] => destruct (Z.leb_spec a b); try lia
           | |- context [?a =? ?b] => destruct (Z.eqb_spec a b); try lia
           end.
    cbn. lia.
Qed.

(** C2. On every valid count, [calculateDistribution] returns what the policy
    table followed by the floor-enforcement pass prescribes: all Easy at
    1; [count-1, 1, 0] at 2 and 3; [2, 2, count-4] at 4 and 5; the floors of
    30% and 40% with Hard as the remainder from 6 to 10; the floors of a
    quarter and a half with Hard as the remainder above 10; and then, from
    count 3 on, each tier that came out as 0 raised to 1 on its own. *)
Theorem C2_calculateDistribution_follows_policy count :
  valid_count count ->
  plan_of (calculateDistribution count) = planDistribution count.
Proof.
  intros H. rewrite calculateDistribution_closed by exact H.
  apply closed_form_planDistribution. destruct H. lia.
Qed.

Lemma C2_calculateDistribution_follows_policy_witness :
  valid_count 7 /\
  plan_of (calculateDistribution 7) = planDistribution 7 /\
  planDistribution 7 = mkPlan 2 2 3.
Proof.
  assert (H : valid_count 7) by (unfold valid_count; rewrite int_max_eq; lia).
  split; [exact H |].
  split; [exact (C2_calculateDistribution_follows_policy 7 H) | reflexivity].
Defined.

(** C3, as the code has it. On every valid count the three values are
    non-negative; they add up to the count, except at 3 and 4, where the
    raised Hard tier makes them add up to the count plus one. *)
Theorem C3_distribution_sum count :
  valid_count count ->
  let p := plan_of (calculateDistribution count) in
  0 <= easy p /\ 0 <= medium p /\ 0 <= hard p /\
  easy p + medium p + hard p
    = if (count =? 3) || (count =? 4) then count + 1 else count.
Proof.
  intros H. rewrite calculateDistribution_closed by exact H.
  apply closed_form_sum. destruct H. lia.
Qed.

Lemma C3_distribution_sum_witness :
  valid_count 9 /\
  let p := plan_of (calculateDistribution 9) in
  0 <= easy p /\ 0 <= medium p /\ 0 <= hard p /\
  easy p + medium p + hard p = 9.
Proof.
  assert (H : valid_count 9) by (unfold valid_count; rewrite int_max_eq; lia).
  split; [exact H |].
  exact (C3_distribution_sum 9 H).
Defined.

(** C3 as stated fails: at the positive count 3 the three values are 2, 1
    and 1, which do not add up to 3. *)
Lemma C3_sum_fails_at_3 :
  ~ (forall count, 0 < count ->
       let p := plan_of (calculateDistribution count) in
       0 <= easy p /\ 0 <= medium p /\ 0 <= hard p /\
       easy p + medium p + hard p = count).
Proof.
  intros H. specialize (H 3 ltac:(lia)).
  vm_compute in H. destruct H as (_ & _ & _ & H). discriminate H.
Qed.

(** ** Slices and the shuffle *)

Lemma len_nonneg {A} (l : list A) : 0 <= len l.
Proof. unfold len. lia. Qed.

Lemma index_lookup {A} (s : list A) i a :
  index s i = Some a -> s !! Z.to_nat i = Some a.
Proof. unfold index. destruct (_ && _); [done | discriminate]. Qed.

Lemma index_in_range {A} (s : list A) i :
  0 <= i < len s -> is_Some (index s i).
Proof.
  intros [H0 H1]. unfold index.
  destruct (Z.leb_spec 0 i); [| lia].
  destruct (Z.ltb_spec i (len s)); [| lia]. cbn.
  apply lookup_lt_is_Some. unfold len in *. lia.
Qed.

Lemma swap_Permutation {A} (s s' : list A) i j :
  swap s i j = Some s' -> s' ≡ₚ s.
Proof.
  unfold swap. destruct (index s i) as [a |] eqn:Hi; [| discriminate].
  destruct (index s j) as [b |] eqn:Hj; [| discriminate].
  intros [= <-]. apply Permutation_insert_swap; by apply index_lookup.
Qed.

Lemma swap_in_range {A} (s : list A) i j :
  0 <= i < len s -> 0 <= j < len s -> is_Some (swap s i j).
Proof.
  intros Hi Hj. unfold swap.
  destruct (index_in_range s i Hi) as [a ->].
  destruct (index_in_range s j Hj) as [b ->]. by eexists.
Qed.

Lemma Intn_in_range r n :
  0 < n -> exists v r', Intn r n = Some (v, r') /\ 0 <= v < n.
Proof.
  intros Hn. unfold Intn. destruct (Z.leb_spec n 0); [lia |].
  eexists _, _. split; [reflexivity |]. by apply Z.mod_pos_bound.
Qed.

Lemma shuffle_panicked ixs : foldl shuffle_step None ixs = None.
Proof. induction ixs as [| i ixs IH]; [done | exact IH]. Qed.

Lemma shuffle_Permutation ixs : forall s r s' r',
  foldl shuffle_step (Some (s, r)) ixs = Some (s', r') -> s' ≡ₚ s.
Proof.
  induction ixs as [| i ixs IH]; intros s r s' r' H.
  - by injection H as -> ->.
  - cbn [foldl] in H.
    destruct (shuffle_step (Some (s, r)) i) as [[s1 r1] |] eqn:Hstep.
    + apply IH in H. rewrite H.
      cbn in Hstep. destruct (Intn r _) as [[v rv] |]; [| discriminate].
      destruct (swap s i _) as [sw |] eqn:Hsw; [| discriminate].
      injection Hstep as <- <-. by eapply swap_Permutation.
    + by rewrite shuffle_panicked in H.
Qed.

Lemma shuffle_step_returns s r i :
  fits s -> 0 <= i < len s ->
  exists s' r', shuffle_step (Some (s, r)) i = Some (s', r') /\
                length s' = length s.
Proof.
  intros Hfit Hi. unfold fits in Hfit. cbn.
  rewrite sub_exact by (int_bounds; lia).
  destruct (Intn_in_range r (len s - i) ltac:(lia)) as (v & r' & -> & Hv).
  rewrite add_exact by (int_bounds; lia).
  destruct (swap_in_range s i (i + v) ltac:(lia) ltac:(lia)) as [s' Hs'].
  rewrite Hs'. eexists _, _. split; [reflexivity |].
  apply swap_Permutation in Hs'. by rewrite Hs'.
Qed.

Lemma shuffle_returns k : forall s r i,
  fits s -> 0 <= i -> i + Z.of_nat k <= len s ->
  exists s' r', foldl shuffle_step (Some (s, r)) (seqZ i (Z.of_nat k))
                = Some (s', r') /\ length s' = length s.
Proof.
  induction k as [| k IH]; intros s r i Hfit H0 Hk.
  - cbn. by eexists _, _.
  - rewrite seqZ_cons by lia. cbn [foldl].
    destruct (shuffle_step_returns s r i Hfit ltac:(lia))
      as (s1 & r1 & -> & Hlen).
    replace (Z.pred (Z.of_nat (S k))) with (Z.of_nat k) by lia.
    destruct (IH s1 r1 (Z.succ i)) as (s' & r' & Hs' & Hlen').
    + unfold fits, len in *. by rewrite Hlen.
    + lia.
    + unfold len in *. rewrite Hlen. lia.
    + rewrite Hs'. eexists _, _. split; [reflexivity | congruence].
Qed.

(** Whatever [randomSelect] returns is drawn from [problems] without
    replacement. *)
Lemma randomSelect_drawn r problems n selected r' :
  randomSelect r problems n = Some (selected, r') ->
  selected ⊆+ problems /\
  (len problems <= n -> selected = problems) /\
  (n < len problems -> len selected = n).
Proof.
  unfold randomSelect. destruct (Z.leb_spec (len problems) n) as [Hle | Hlt].
  - intros [= <- <-]. split; [done |]. split; [done | lia].
  - destruct (foldl _ _ _) as [[s rs] |] eqn:Hsh; [| discriminate].
    unfold slice_to.
    destruct (Z.leb_spec 0 n) as [H0 |]; [| discriminate].
    destruct (Z.leb_spec n (len s)) as [Hn |]; [| discriminate].
    cbn. intros [= <- <-]. apply shuffle_Permutation in Hsh.
    split; [| split; [lia |]].
    + rewrite <- Hsh. apply submseteq_take.
    + intros _. unfold len in *. rewrite length_take. lia.
Qed.

(** On a count that is not negative it does return. *)
Lemma randomSelect_returns r problems n :
  fits problems -> 0 <= n ->
  exists selected r', randomSelect r problems n = Some (selected, r').
Proof.
  intros Hfit H0. unfold randomSelect.
  destruct (Z.leb_spec (len problems) n) as [Hle | Hlt]; [by eexists _, _ |].
  destruct (shuffle_returns (Z.to_nat n) problems r 0 Hfit ltac:(lia)
              ltac:(rewrite Z2Nat.id; lia)) as (s & rs & Hs & Hlen).
  rewrite Z2Nat.id in Hs by lia. rewrite Hs.
  unfold slice_to.
  destruct (Z.leb_spec 0 n); [| lia].
  destruct (Z.leb_spec n (len s)) as [| Hbad].
  - cbn. by eexists _, _.
  - unfold len in *. rewrite Hlen in Hbad. lia.
Qed.

(** A negative count makes it panic, at the final reslicing. *)
Lemma randomSelect_negative r problems n :
  n < 0 -> randomSelect r problems n = None.
Proof.
  intros Hn. unfold randomSelect.
  pose proof (len_nonneg problems).
  destruct (Z.leb_spec (len problems) n); [lia |].
  rewrite seqZ_nil by lia. cbn. unfold slice_to.
  destruct (Z.leb_spec 0 n); [lia | reflexivity].
Qed.

(** ** The loop over the tiers *)

(** One tier, on inputs without overflow: what is appended is drawn from the
    tier's pool, there are as many as needed or as the pool holds, and the
    rest is carried as the new shortfall. *)
Lemma selectTier_step distribution problemsByDifficulty sel sf r diff :
  let needed := at_int distribution diff + sf in
  let available := at_pool problemsByDifficulty diff in
  0 <= at_int distribution diff -> 0 <= sf ->
  needed <= GoInt.int_max -> fits available ->
  exists drawn r',
    selectTier distribution problemsByDifficulty
      (Some (mkSelection sel sf r)) diff
    = Some (mkSelection (sel ++ drawn) (needed - len drawn) r') /\
    drawn ⊆+ available /\
    len drawn = Z.min needed (len available) /\
    (len available < needed -> drawn = available /\ r' = r).
Proof.
  intros needed available Hd Hs Hmax Hfit. unfold selectTier.
  cbn [shortfall selectedProblems sel_rng].
  rewrite add_exact by (int_bounds; lia).
  fold needed available.
  pose proof (len_nonneg available) as Hlen.
  destruct (Z.ltb_spec (len available) needed) as [Hshort | Henough].
  - exists available, r.
    rewrite sub_exact by (int_bounds; lia).
    repeat split; [done | lia].
  - destruct (randomSelect_returns r available needed Hfit
                ltac:(lia)) as (selected & r' & Hsel).
    rewrite Hsel. apply randomSelect_drawn in Hsel as (Hsub & Hall & Hpart).
    assert (len selected = needed) as Hn.
    { destruct (Z.eq_dec (len available) needed) as [Heq | Hne].
      - rewrite Hall by lia. exact Heq.
      - apply Hpart. lia. }
    exists selected, r'. rewrite Hn, Z.sub_diag.
    repeat split; [done | lia | lia | lia].
Qed.

(** Without any assumption: whatever a tier appends comes from its pool. *)
Lemma selectTier_appends distribution problemsByDifficulty st diff st' :
  selectTier distribution problemsByDifficulty (Some st) diff = Some st' ->
  exists drawn,
    selectedProblems st' = selectedProblems st ++ drawn /\
    drawn ⊆+ at_pool problemsByDifficulty diff.
Proof.
  unfold selectTier. destruct (_ <? _).
  - intros [= <-]. by eexists.
  - destruct (randomSelect _ _ _) as [[selected r'] |] eqn:Hsel;
      [| discriminate].
    intros [= <-]. exists selected. split; [done |].
    by apply randomSelect_drawn in Hsel as [? _].
Qed.

Lemma selectTier_panicked distribution problemsByDifficulty diffs :
  foldl (selectTier distribution problemsByDifficulty) None diffs = None.
Proof. induction diffs as [| d diffs IH]; [done | exact IH]. Qed.

(** The assembled list is a draw from the Easy pool, followed by a draw from
    the Medium pool, followed by a draw from the Hard pool. *)
Lemma selectByDistribution_appends distribution problemsByDifficulty r st :
  selectByDistribution distribution problemsByDifficulty r = Some st ->
  exists e m h,
    selectedProblems st = e ++ m ++ h /\
    e ⊆+ at_pool problemsByDifficulty DifficultyEasy /\
    m ⊆+ at_pool problemsByDifficulty DifficultyMedium /\
    h ⊆+ at_pool problemsByDifficulty DifficultyHard.
Proof.
  unfold selectByDistribution, difficulties. cbn [foldl].
  destruct (selectTier _ _ (Some _) DifficultyEasy) as [s1 |] eqn:H1;
    [| cbn; discriminate].
  destruct (selectTier _ _ (Some s1) DifficultyMedium) as [s2 |] eqn:H2;
    [| discriminate].
  intros H3.
  apply selectTier_appends in H1 as (e & He & Hse).
  apply selectTier_appends in H2 as (m & Hm & Hsm).
  apply selectTier_appends in H3 as (h & Hh & Hsh).
  exists e, m, h. cbn in He. rewrite Hh, Hm, He, <- app_assoc. done.
Qed.

(** On a valid distribution and pools the loop returns, and the three draws
    have the sizes the carry-forward rule gives. *)
Lemma selectByDistribution_returns distribution problemsByDifficulty r :
  valid_distribution distribution -> pools_fit problemsByDifficulty ->
  let pool := at_pool problemsByDifficulty in
  let target := at_int distribution in
  exists e m h sf r',
    selectByDistribution distribution problemsByDifficulty r
    = Some {| selectedProblems := e ++ m ++ h; shortfall := sf;
              sel_rng := r' |} /\
    e ⊆+ pool DifficultyEasy /\
    m ⊆+ pool DifficultyMedium /\
    h ⊆+ pool DifficultyHard /\
    len e = Z.min (target DifficultyEasy) (len (pool DifficultyEasy)) /\
    len m = Z.min (target DifficultyMedium + (target DifficultyEasy - len e))
                  (len (pool DifficultyMedium)) /\
    len h = Z.min (target DifficultyHard
                   + (target DifficultyMedium
                      + (target DifficultyEasy - len e) - len m))
                  (len (pool DifficultyHard)) /\
    sf = target DifficultyHard
         + (target DifficultyMedium + (target DifficultyEasy - len e) - len m)
         - len h.
Proof.
  intros (HE & HM & HH & Hsum) Hfit pool target. subst pool target.
  apply Forall_cons in Hfit as [FE Hfit].
  apply Forall_cons in Hfit as [FM Hfit].
  apply Forall_cons in Hfit as [FH _].
  unfold selectByDistribution, difficulties. cbn [foldl].
  destruct (selectTier_step distribution problemsByDifficulty
              [] 0 r DifficultyEasy)
    as (e & r1 & -> & Hse & Hle & _); try lia; try done.
  rewrite Z.add_0_r in *.
  pose proof (len_nonneg e).
  destruct (selectTier_step distribution problemsByDifficulty
              ([] ++ e) (at_int distribution DifficultyEasy - len e) r1
              DifficultyMedium)
    as (m & r2 & -> & Hsm & Hlm & _); try lia; try done.
  pose proof (len_nonneg m).
  destruct (selectTier_step distribution problemsByDifficulty
              (([] ++ e) ++ m)
              (at_int distribution DifficultyMedium
               + (at_int distribution DifficultyEasy - len e) - len m) r2
              DifficultyHard)
    as (h & r3 & -> & Hsh & Hlh & _); try lia; try done.
  eexists e, m, h, _, r3.
  split; [by rewrite app_nil_l, <- app_assoc |].
  repeat split; try done.
Qed.

(** ** Sorting *)

Section Sort.
Context {A : Type} (key : A -> Z).

Lemma insert_by_Permutation (lt : A -> A -> bool) x l :
  insert_by lt x l ≡ₚ x :: l.
Proof.
  induction l as [| y l IH]; cbn; [done |].
  destruct (lt x y); [done |]. rewrite IH. apply Permutation_swap.
Qed.

Lemma sort_from_Permutation (lt : A -> A -> bool) l : forall sorted,
  foldl (fun sorted x => insert_by lt x sorted) sorted l ≡ₚ sorted ++ l.
Proof.
  induction l as [| x l IH]; intros sorted; cbn.
  - by rewrite app_nil_r.
  - rewrite IH, insert_by_Permutation. cbn. apply Permutation_middle.
Qed.

Lemma sort_Slice_Permutation (lt : A -> A -> bool) l :
  sort_Slice lt l ≡ₚ l.
Proof. unfold sort_Slice. by rewrite sort_from_Permutation. Qed.

Lemma sort_Slice_length (lt : A -> A -> bool) l :
  length (sort_Slice lt l) = length l.
Proof. by rewrite sort_Slice_Permutation. Qed.

Lemma insert_by_ordered x l :
  StronglySorted (orderedBy key) l -> StronglySorted (orderedBy key) (insert_by (lessBy key) x l).
Proof.
  induction 1 as [| y l Hl IH Hy]; cbn.
  - by repeat constructor.
  - unfold lessBy at 1.
    destruct (Z.ltb_spec (key x) (key y)) as [Hlt | Hge].
    + constructor; [by constructor |].
      constructor; [unfold orderedBy; lia |].
      eapply Forall_impl; [exact Hy |]. unfold orderedBy. intros; lia.
    + constructor; [exact IH |].
      rewrite insert_by_Permutation. constructor; [exact Hge | exact Hy].
Qed.

Lemma sort_from_ordered l : forall sorted,
  StronglySorted (orderedBy key) sorted ->
  StronglySorted (orderedBy key)
    (foldl (fun sorted x => insert_by (lessBy key) x sorted) sorted l).
Proof.
  induction l as [| x l IH]; intros sorted Hs; cbn; [done |].
  apply IH. by apply insert_by_ordered.
Qed.

Lemma sort_Slice_ordered l : StronglySorted (orderedBy key) (sort_Slice (lessBy key) l).
Proof. apply sort_from_ordered. constructor. Qed.

Lemma ordered_positions l :
  StronglySorted (orderedBy key) l ->
  forall i j a b, (i < j)%nat -> l !! i = Some a -> l !! j = Some b ->
                  key a <= key b.
Proof.
  induction 1 as [| x l Hl IH Hx]; intros i j a b Hij Hi Hj; [done |].
  destruct j as [| j]; [lia |]. cbn in Hj.
  destruct i as [| i]; cbn in Hi.
  - injection Hi as ->. rewrite Forall_forall in Hx.
    apply Hx. by eapply list_elem_of_lookup_2.
  - eapply (IH i j); [lia | done | done].
Qed.
End Sort.

(** ** The size check and the whole selection *)

Lemma len_app {A} (l k : list A) : len (l ++ k) = len l + len k.
Proof. unfold len. rewrite length_app. lia. Qed.

Lemma len_Permutation {A} (l k : list A) : l ≡ₚ k -> len l = len k.
Proof. unfold len. by intros ->. Qed.

Lemma len_zero {A} (l : list A) : len l = 0 <-> l = [].
Proof.
  unfold len. destruct l; cbn; split; try done; try lia.
Qed.

Lemma finishSelection_cases count selected :
  (selected = [] /\ 0 < count /\
   finishSelection count selected = ([], Some ErrNotEnoughProblems)) \/
  ((selected <> [] \/ count <= 0) /\
   finishSelection count selected = (sort_Slice lessByWeight selected, None)).
Proof.
  unfold finishSelection.
  destruct (Z.ltb_spec (len selected) count) as [Hlt | Hge].
  - destruct (Z.eqb_spec (len selected) 0) as [H0 | Hn].
    + left. apply len_zero in H0 as H0'. repeat split; [done | lia].
    + right. split; [| done]. left. intros ->. by apply Hn.
  - right. split; [| done].
    destruct selected; [right; unfold len in Hge; cbn in Hge; lia | by left].
Qed.

Lemma countOf_app diff l k : countOf diff (l ++ k) = countOf diff l + countOf diff k.
Proof. unfold countOf. by rewrite filter_app, len_app. Qed.

Lemma countOf_Permutation diff l k : l ≡ₚ k -> countOf diff l = countOf diff k.
Proof. unfold countOf. intros H. apply len_Permutation. by rewrite H. Qed.

Lemma countOf_tier diff diff' pool l :
  Forall (fun p => p_Difficulty p = diff') pool -> l ⊆+ pool ->
  countOf diff l = if decide (diff' = diff) then len l else 0.
Proof.
  intros Hpool Hsub.
  assert (Forall (fun p => p_Difficulty p = diff') l) as Hl.
  { rewrite Forall_forall in *. intros p Hp. apply Hpool.
    by eapply elem_of_submseteq. }
  clear Hpool Hsub. unfold countOf.
  induction Hl as [| p l Hp Hl IH]; [by case_decide |].
  rewrite filter_cons. case_decide as Hd; subst.
  - rewrite decide_True by done. unfold len in *. cbn. lia.
  - rewrite decide_False by done. exact IH.
Qed.

(** The scenario of the design document: one Easy problem, ten Medium, ten
    Hard, and three wanted from each tier. *)
Lemma carry_forward_scenario distribution problemsByDifficulty r :
  len (at_pool problemsByDifficulty DifficultyEasy) = 1 ->
  len (at_pool problemsByDifficulty DifficultyMedium) = 10 ->
  len (at_pool problemsByDifficulty DifficultyHard) = 10 ->
  plan_of distribution = mkPlan 3 3 3 ->
  exists e m h res r',
    selectWith distribution problemsByDifficulty 9 r = Some ((res, None), r') /\
    res ≡ₚ e ++ m ++ h /\
    e ⊆+ at_pool problemsByDifficulty DifficultyEasy /\ len e = 1 /\
    m ⊆+ at_pool problemsByDifficulty DifficultyMedium /\ len m = 5 /\
    h ⊆+ at_pool problemsByDifficulty DifficultyHard /\ len h = 3 /\
    len res = 9 /\
    (tiered problemsByDifficulty ->
     countOf DifficultyEasy res = 1 /\
     countOf DifficultyMedium res = 5 /\
     countOf DifficultyHard res = 3).
Proof.
  intros HE HM HH Hplan. injection Hplan as De Dm Dh.
  destruct (selectByDistribution_returns distribution problemsByDifficulty r)
    as (e & m & h & sf & r' & Hsel & Hse & Hsm & Hsh & Hle & Hlm & Hlh & Hsf).
  { unfold valid_distribution. rewrite De, Dm, Dh. int_bounds. lia. }
  { unfold pools_fit, difficulties, fits. rewrite !Forall_cons, HE, HM, HH.
    int_bounds. repeat split; try lia. constructor. }
  rewrite De, Dm, Dh, ?HE, ?HM, ?HH in *.
  assert (len e = 1) as Le by lia. rewrite Le in *.
  assert (len m = 5) as Lm by lia. rewrite Lm in *.
  assert (len h = 3) as Lh by lia.
  assert (len (e ++ m ++ h) = 9) as Lall by (rewrite !len_app; lia).
  unfold selectWith. rewrite Hsel. cbn [selectedProblems sel_rng].
  destruct (finishSelection_cases 9 (e ++ m ++ h))
    as [(Hnil & _) | (_ & ->)].
  { rewrite Hnil in Lall. discriminate Lall. }
  pose proof (sort_Slice_Permutation lessByWeight (e ++ m ++ h)) as Hperm.
  exists e, m, h, (sort_Slice lessByWeight (e ++ m ++ h)), r'.
  do 8 (split; [done |]). split.
  - by rewrite (len_Permutation _ _ Hperm).
  - intros Ht.
    apply Forall_cons in Ht as [TE Ht]. apply Forall_cons in Ht as [TM Ht].
    apply Forall_cons in Ht as [TH _].
    rewrite !(countOf_Permutation _ _ _ Hperm), !countOf_app.
    rewrite !(countOf_tier _ _ _ e TE Hse), !(countOf_tier _ _ _ m TM Hsm),
      !(countOf_tier _ _ _ h TH Hsh).
    repeat case_decide; try done. lia.
Qed.

(** The scenario, run on a concrete generator. *)
Example carry_forward_run :
  (fun out => (map (fun p => (p_ID p, p_Difficulty p)) (fst (fst out)),
               snd (fst out)))
    <$> selectWith (sampleDistribution 3 3 3) (samplePools 1 10 10) 9
          sampleRand
  = Some ([(0%N, "Easy"); (103%N, "Medium"); (102%N, "Medium");
           (100%N, "Medium"); (106%N, "Medium"); (105%N, "Medium");
           (208%N, "Hard"); (201%N, "Hard"); (206%N, "Hard")], None).
Proof. vm_compute. reflexivity. Qed.

(** ** The fan-out and the collection of the pools *)

Lemma collect_lookup problemRepo userID arrival diff :
  forall m : gmap string (list Problem),
    foldl (fun problemsByDifficulty result =>
             match dr_err result with
             | Some _ => problemsByDifficulty
             | None => <[dr_difficulty result := dr_problems result]>
                         problemsByDifficulty
             end)
          m (map (fetchProblems problemRepo userID) arrival) !! diff
    = if bool_decide (diff ∈ arrival /\
                      snd (FindUnsolvedByUserAndDifficulty problemRepo userID diff)
                      = None)
      then Some (fst (FindUnsolvedByUserAndDifficulty problemRepo userID diff))
      else m !! diff.
Proof.
  induction arrival as [| d arrival IH]; intros m; cbn [map foldl].
  - rewrite bool_decide_eq_false_2; [done |]. intros [H _]. by inversion H.
  - rewrite IH. unfold fetchProblems.
    destruct (FindUnsolvedByUserAndDifficulty problemRepo userID d)
      as [problems err] eqn:Hd.
    cbn [dr_err dr_difficulty dr_problems].
    destruct (decide (diff = d)) as [-> | Hne].
    + rewrite Hd. cbn [fst snd]. destruct err as [e |].
      * rewrite !bool_decide_eq_false_2; [done | |]; by intros [_ ?].
      * rewrite lookup_insert_eq.
        rewrite (bool_decide_eq_true_2 (d ∈ d :: arrival /\ _))
          by (split; [by left | done]).
        match goal with
        | |- context [@bool_decide ?P ?D] => destruct (@bool_decide P D)
        end; reflexivity.
    + assert (m !! diff
              = match err with
                | Some _ => m
                | None => <[d := problems]> m
                end !! diff) as <-.
      { destruct err; [done |]. by rewrite lookup_insert_ne. }
      rewrite (bool_decide_ext (diff ∈ d :: arrival /\ _)
                 (diff ∈ arrival /\
                  snd (FindUnsolvedByUserAndDifficulty problemRepo userID diff)
                  = None)); [done |].
      rewrite elem_of_cons. intuition.
Qed.

(** The pool the selection reads for a tier: what that tier's worker
    fetched, and nothing at all when its fetch failed. *)
Lemma fetchAll_pool problemRepo arrival userID diff :
  diff ∈ arrival ->
  at_pool (fetchAll problemRepo arrival userID) diff
  = fetched problemRepo userID diff.
Proof.
  intros Hin. unfold at_pool, fetchAll, collectResults, fetched.
  rewrite collect_lookup.
  destruct (FindUnsolvedByUserAndDifficulty problemRepo userID diff)
    as [problems [e |]]; cbn [fst snd].
  - rewrite bool_decide_eq_false_2; [done |]. by intros [_ ?].
  - by rewrite bool_decide_eq_true_2.
Qed.

Lemma fetchAll_pool_absent problemRepo arrival userID diff :
  diff ∉ arrival ->
  at_pool (fetchAll problemRepo arrival userID) diff = [].
Proof.
  intros Hin. unfold at_pool, fetchAll, collectResults.
  rewrite collect_lookup.
  rewrite bool_decide_eq_false_2; [done |]. by intros [? _].
Qed.

(** The order in which the workers deliver does not change any pool. *)
Lemma fetchAll_pool_complete problemRepo arrival userID diff :
  arrival ≡ₚ difficulties -> diff ∈ difficulties ->
  at_pool (fetchAll problemRepo arrival userID) diff
  = fetched problemRepo userID diff.
Proof. intros Hp Hd. apply fetchAll_pool. by rewrite Hp. Qed.

Lemma fetched_fits problemRepo userID diff :
  fits (fst (FindUnsolvedByUserAndDifficulty problemRepo userID diff)) ->
  fits (fetched problemRepo userID diff).
Proof.
  unfold fetched.
  destruct (FindUnsolvedByUserAndDifficulty problemRepo userID diff)
    as [problems [e |]]; [| done].
  intros _. unfold fits. rewrite int_max_eq. done.
Qed.

Lemma fetchAll_fits problemRepo arrival userID :
  repo_fits problemRepo userID ->
  pools_fit (fetchAll problemRepo arrival userID).
Proof.
  unfold repo_fits, pools_fit. intros H. eapply Forall_impl; [exact H |].
  clear H. intros diff Hfit. cbn beta in *.
  destruct (decide (diff ∈ arrival)) as [Hin | Hout].
  - rewrite fetchAll_pool by done. by apply fetched_fits.
  - rewrite fetchAll_pool_absent by done. unfold fits. by rewrite int_max_eq.
Qed.

Lemma calculateDistribution_valid count :
  valid_count count -> valid_distribution (calculateDistribution count).
Proof.
  intros Hc. pose proof (calculateDistribution_closed count Hc) as Hplan.
  destruct Hc as [H1 Hmax].
  pose proof (closed_form_sum count H1) as Hsum. rewrite <- Hplan in Hsum.
  cbn in Hsum. destruct Hsum as (He & Hm & Hh & Hsum).
  unfold valid_distribution. repeat split; try done.
  rewrite Hsum. revert Hmax. int_bounds.
  destruct (Z.eqb_spec count 3), (Z.eqb_spec count 4); cbn; lia.
Qed.

(** On a valid request the selection returns: no step of it panics. *)
Lemma SelectProblemsForContest_returns problemRepo arrival r userID count :
  valid_count count -> repo_fits problemRepo userID ->
  exists st,
    selectByDistribution (calculateDistribution count)
      (fetchAll problemRepo arrival userID) r = Some st /\
    SelectProblemsForContest problemRepo arrival r userID count
    = Some (finishSelection count (selectedProblems st), sel_rng st).
Proof.
  intros Hc Hfit.
  destruct (selectByDistribution_returns (calculateDistribution count)
              (fetchAll problemRepo arrival userID) r
              (calculateDistribution_valid count Hc)
              (fetchAll_fits problemRepo arrival userID Hfit))
    as (e & m & h & sf & r' & Hsel & _).
  eexists. split; [exact Hsel |].
  unfold SelectProblemsForContest, selectWith. by rewrite Hsel.
Qed.

Lemma selectTier_pool_ext distribution pools1 pools2 st diff :
  at_pool pools1 diff = at_pool pools2 diff ->
  selectTier distribution pools1 st diff
  = selectTier distribution pools2 st diff.
Proof. intros H. unfold selectTier. by rewrite H. Qed.

(** The selection reads the collected map at the three tiers only. *)
Lemma selectWith_pool_ext distribution pools1 pools2 count r :
  Forall (fun diff => at_pool pools1 diff = at_pool pools2 diff) difficulties ->
  selectWith distribution pools1 count r
  = selectWith distribution pools2 count r.
Proof.
  intros H.
  apply Forall_cons in H as [HE H]. apply Forall_cons in H as [HM H].
  apply Forall_cons in H as [HH _].
  unfold selectWith, selectByDistribution, difficulties. cbn [foldl].
  by rewrite (selectTier_pool_ext _ pools1 pools2 _ DifficultyEasy),
    (selectTier_pool_ext _ pools1 pools2 _ DifficultyMedium),
    (selectTier_pool_ext _ pools1 pools2 _ DifficultyHard).
Qed.

(** Whatever the order of arrival of the three results, the selection is
    the one obtained when they arrive as Easy, Medium, Hard. *)
Lemma SelectProblemsForContest_any_arrival problemRepo arrival r userID count :
  arrival ≡ₚ difficulties ->
  SelectProblemsForContest problemRepo arrival r userID count
  = SelectProblemsForContest problemRepo difficulties r userID count.
Proof.
  intros Hp. unfold SelectProblemsForContest. apply selectWith_pool_ext.
  apply Forall_forall. intros diff Hd.
  rewrite (fetchAll_pool_complete _ arrival) by done.
  by rewrite (fetchAll_pool_complete _ difficulties).
Qed.





(** A tier whose fetch reports an error is read as an empty pool. *)
Lemma failed_fetch_reads_empty problemRepo arrival userID diff problems e :
  FindUnsolvedByUserAndDifficulty problemRepo userID diff = (problems, Some e) ->
  at_pool (fetchAll problemRepo arrival userID) diff = [].
Proof.
  intros Hfail. destruct (decide (diff ∈ arrival)) as [Hin | Hout].
  - rewrite fetchAll_pool by done. unfold fetched. by rewrite Hfail.
  - by apply fetchAll_pool_absent.
Qed.

(** C4 on the code. With the Easy fetch failing and one unsolved problem in
    each of Medium and Hard, a request for 2 problems does not fail: in any
    order of arrival the failed tier counts as empty, its target is carried
    forward, and the Medium and the Hard problem come back as a success. *)
Theorem C4_failed_fetch_yields_partial_selection arrival r :
  arrival ≡ₚ difficulties ->
  SelectProblemsForContest failingRepo arrival r 7%N 2
  = Some (([sampleProblem 100 DifficultyMedium;
            sampleProblem 200 DifficultyHard], None), r).
Proof.
  intros Hp. rewrite SelectProblemsForContest_any_arrival by exact Hp.
  vm_compute. reflexivity.
Qed.

Lemma C4_failed_fetch_yields_partial_selection_witness :
  fst (FindUnsolvedByUserAndDifficulty failingRepo 7%N DifficultyEasy) = [] /\
  snd (FindUnsolvedByUserAndDifficulty failingRepo 7%N DifficultyEasy)
  = Some (ErrDatabase "connection refused") /\
  SelectProblemsForContest failingRepo
    [DifficultyHard; DifficultyEasy; DifficultyMedium] sampleRand 7%N 2
  = Some (([sampleProblem 100 DifficultyMedium;
            sampleProblem 200 DifficultyHard], None), sampleRand).
Proof.
  split; [reflexivity |]. split; [reflexivity |].
  apply (C4_failed_fetch_yields_partial_selection
           [DifficultyHard; DifficultyEasy; DifficultyMedium] sampleRand).
  unfold difficulties.
  apply (Permutation_trans
           (perm_swap DifficultyEasy DifficultyHard [DifficultyMedium])).
  apply perm_skip. apply perm_swap.
Defined.

(** ** What the selection returns *)

Lemma submseteq_nil_inv {A} (l : list A) : l ⊆+ [] -> l = [].
Proof.
  intros H. apply submseteq_length in H. by destruct l; [| cbn in H; lia].
Qed.

(** C5. On a valid request the selection returns, and it returns the
    not-enough-problems error exactly when the list assembled over the three
    tiers is empty (as it is when all three pools are empty). A non-empty
    assembled list, also one shorter than the requested count, is returned,
    rearranged by the sort, as a success. *)
Theorem C5_not_enough_exactly_when_empty
    problemRepo arrival r userID count :
  valid_count count -> repo_fits problemRepo userID ->
  exists st res err,
    selectByDistribution (calculateDistribution count)
      (fetchAll problemRepo arrival userID) r = Some st /\
    SelectProblemsForContest problemRepo arrival r userID count
    = Some ((res, err), sel_rng st) /\
    (err = Some ErrNotEnoughProblems <-> selectedProblems st = []) /\
    (selectedProblems st = [] -> res = []) /\
    (selectedProblems st <> [] ->
     err = None /\ res ≡ₚ selectedProblems st) /\
    (selectedProblems st <> [] -> len (selectedProblems st) < count ->
     err = None /\ res ≡ₚ selectedProblems st /\ 0 < len res < count) /\
    (Forall (fun diff => at_pool (fetchAll problemRepo arrival userID) diff = [])
            difficulties ->
     err = Some ErrNotEnoughProblems).
Proof.
  intros Hc Hfit.
  destruct (SelectProblemsForContest_returns problemRepo arrival r userID
              count Hc Hfit) as (st & Hsel & Hret).
  exists st.
  destruct (finishSelection_cases count (selectedProblems st))
    as [(Hnil & _ & Hfin) | ([Hne | Hbad] & Hfin)];
    [| | destruct Hc; lia]; rewrite Hfin in Hret.
  - exists [], (Some ErrNotEnoughProblems). repeat split; try done.
  - pose proof (sort_Slice_Permutation lessByWeight (selectedProblems st))
      as Hperm.
    exists (sort_Slice lessByWeight (selectedProblems st)), None.
    split; [done |]. split; [done |]. split; [split; done |].
    split; [done |]. split; [done |]. split.
    + intros _ Hlt. split; [done |]. split; [done |].
      rewrite (len_Permutation _ _ Hperm). split; [| done].
      pose proof (len_nonneg (selectedProblems st)).
      destruct (Z.eq_dec (len (selectedProblems st)) 0) as [H0 | ?]; [| lia].
      by apply len_zero in H0.
    + intros Hempty.
      apply Forall_cons in Hempty as [HE Hempty].
      apply Forall_cons in Hempty as [HM Hempty].
      apply Forall_cons in Hempty as [HH _].
      apply selectByDistribution_appends in Hsel
        as (e & m & h & Hst & Hse & Hsm & Hsh).
      rewrite HE in Hse. rewrite HM in Hsm. rewrite HH in Hsh.
      apply submseteq_nil_inv in Hse, Hsm, Hsh. subst e m h.
      by destruct Hne.
Qed.

Lemma C5_not_enough_exactly_when_empty_witness :
  (exists res r',
     SelectProblemsForContest (sampleRepo 1 0 0) difficulties sampleRand 7%N 5
     = Some ((res, None), r') /\ len res = 1) /\
  (exists r',
     SelectProblemsForContest (sampleRepo 0 0 0) difficulties sampleRand 7%N 5
     = Some (([], Some ErrNotEnoughProblems), r')).
Proof.
  assert (Hc : valid_count 5) by (vm_compute; split; discriminate).
  split.
  - assert (Hfit : repo_fits (sampleRepo 1 0 0) 7%N).
    { unfold repo_fits, difficulties.
      repeat (apply Forall_cons; split; [vm_compute; discriminate |]).
      constructor. }
    destruct (C5_not_enough_exactly_when_empty (sampleRepo 1 0 0)
                difficulties sampleRand 7%N 5 Hc Hfit)
      as (st & res & err & Hsel & Hret & _ & _ & _ & Hpartial & _).
    vm_compute in Hsel. injection Hsel as <-.
    destruct Hpartial as (-> & Hperm & Hlen).
    { cbn. discriminate. }
    { vm_compute. reflexivity. }
    exists res, (sel_rng (mkSelection [sampleProblem 0 DifficultyEasy] 4 sampleRand)).
    split; [exact Hret |].
    rewrite (len_Permutation _ _ Hperm). reflexivity.
  - assert (Hfit : repo_fits (sampleRepo 0 0 0) 7%N).
    { unfold repo_fits, difficulties.
      repeat (apply Forall_cons; split; [vm_compute; discriminate |]).
      constructor. }
    destruct (C5_not_enough_exactly_when_empty (sampleRepo 0 0 0)
                difficulties sampleRand 7%N 5 Hc Hfit)
      as (st & res & err & Hsel & Hret & _ & Hnil & _ & _ & Hempty).
    vm_compute in Hsel. injection Hsel as <-.
    rewrite Hempty in Hret.
    + rewrite (Hnil eq_refl) in Hret. eexists. exact Hret.
    + unfold difficulties.
      repeat (apply Forall_cons; split; [vm_compute; reflexivity |]).
      constructor.
Defined.

Lemma submseteq_NoDup {A} (l k : list A) : l ⊆+ k -> NoDup k -> NoDup l.
Proof.
  intros Hsub Hk. apply submseteq_Permutation in Hsub as [k' Hk'].
  rewrite Hk' in Hk. by apply NoDup_app in Hk as [? _].
Qed.

(** Every list the sampler returns is a sub-multiset of the three pools put
    together. *)
Lemma selectWith_from_pools distribution problemsByDifficulty count r res err r' :
  selectWith distribution problemsByDifficulty count r
  = Some ((res, err), r') ->
  res ⊆+ at_pool problemsByDifficulty DifficultyEasy
         ++ at_pool problemsByDifficulty DifficultyMedium
         ++ at_pool problemsByDifficulty DifficultyHard.
Proof.
  unfold selectWith.
  destruct (selectByDistribution _ _ _) as [st |] eqn:Hsel; [| discriminate].
  intros [= Hfin _].
  apply selectByDistribution_appends in Hsel
    as (e & m & h & Hst & Hse & Hsm & Hsh).
  assert (selectedProblems st ⊆+
            at_pool problemsByDifficulty DifficultyEasy
            ++ at_pool problemsByDifficulty DifficultyMedium
            ++ at_pool problemsByDifficulty DifficultyHard) as Hall.
  { rewrite Hst. by repeat apply submseteq_app. }
  destruct (finishSelection_cases count (selectedProblems st))
    as [(_ & _ & Hcase) | (_ & Hcase)];
    rewrite Hcase in Hfin; injection Hfin as <- _.
  - apply submseteq_nil_l.
  - by rewrite sort_Slice_Permutation.
Qed.

Lemma selectWith_returns distribution problemsByDifficulty count r :
  valid_distribution distribution -> pools_fit problemsByDifficulty ->
  exists res err r',
    selectWith distribution problemsByDifficulty count r
    = Some ((res, err), r').
Proof.
  intros Hd Hfit.
  destruct (selectByDistribution_returns distribution problemsByDifficulty r
              Hd Hfit) as (e & m & h & sf & r' & Hsel & _).
  unfold selectWith. rewrite Hsel.
  destruct (finishSelection count _) as [res err]. by eexists _, _, _.
Qed.

(** C6. When no identifier occurs twice in the three pools taken together
    (each pool free of duplicates, the pools pairwise disjoint), every list
    the sampler returns has no identifier twice, each of its problems is a
    member of one of the three pools, and an identifier absent from all
    three pools is absent from it. On a valid distribution and pools the
    sampler does return. *)
Theorem C6_no_duplicate_and_only_pool_members
    distribution problemsByDifficulty count r :
  let pool := at_pool problemsByDifficulty in
  let pooled :=
    pool DifficultyEasy ++ pool DifficultyMedium ++ pool DifficultyHard in
  NoDup (p_ID <$> pooled) ->
  (forall res err r',
     selectWith distribution problemsByDifficulty count r
     = Some ((res, err), r') ->
     NoDup (p_ID <$> res) /\
     (forall p, p ∈ res ->
        p ∈ pool DifficultyEasy \/ p ∈ pool DifficultyMedium
        \/ p ∈ pool DifficultyHard) /\
     (forall id, id ∉ p_ID <$> pooled -> id ∉ p_ID <$> res)) /\
  (valid_distribution distribution -> pools_fit problemsByDifficulty ->
   exists res err r',
     selectWith distribution problemsByDifficulty count r
     = Some ((res, err), r')).
Proof.
  intros pool pooled Hnodup. split; [| apply selectWith_returns].
  intros res err r' Hret.
  apply selectWith_from_pools in Hret. fold pool pooled in Hret.
  split; [| split].
  - eapply submseteq_NoDup; [| exact Hnodup]. by apply fmap_submseteq.
  - intros p Hp. eapply elem_of_submseteq in Hp; [| exact Hret].
    unfold pooled in Hp. rewrite !elem_of_app in Hp. exact Hp.
  - intros id Hout Hin. apply Hout.
    eapply elem_of_submseteq; [exact Hin |]. by apply fmap_submseteq.
Qed.

Lemma C6_no_duplicate_and_only_pool_members_witness :
  exists res r',
    selectWith (calculateDistribution 9) (samplePools 1 10 10) 9 sampleRand
    = Some ((res, None), r') /\
    NoDup (p_ID <$> res) /\
    55%N ∉ p_ID <$> res.
Proof.
  assert (NoDup (p_ID <$> at_pool (samplePools 1 10 10) DifficultyEasy
                          ++ at_pool (samplePools 1 10 10) DifficultyMedium
                          ++ at_pool (samplePools 1 10 10) DifficultyHard))
    as Hnodup.
  { apply (bool_decide_unpack _). vm_compute. exact I. }
  destruct (C6_no_duplicate_and_only_pool_members
              (calculateDistribution 9) (samplePools 1 10 10) 9 sampleRand
              Hnodup) as [Hany _].
  eexists _, _. split; [vm_compute; reflexivity |].
  match goal with
  | |- NoDup (p_ID <$> ?res) /\ _ =>
      destruct (Hany res None
                  (mkRand (fun k => Z.of_nat k * 7 + 3) 8)
                  ltac:(vm_compute; reflexivity)) as (Hres & _ & Hout)
  end.
  split; [exact Hres |]. apply Hout.
  apply (bool_decide_unpack _). vm_compute. exact I.
Defined.

Lemma finishSelection_ordered count selected :
  StronglySorted
    (fun a b => Weight (p_Difficulty a) <= Weight (p_Difficulty b))
    (fst (finishSelection count selected)).
Proof.
  destruct (finishSelection_cases count selected)
    as [(_ & _ & ->) | (_ & ->)]; cbn [fst].
  - constructor.
  - apply (sort_Slice_ordered (fun p => Weight (p_Difficulty p))).
Qed.

(** C7. In every list [SelectProblemsForContest] returns, whatever the
    generator drew and in whatever order the pools arrived, a problem at an
    earlier position never weighs more (Easy 1, Medium 2, Hard 3) than one
    at a later position. On a valid request it does return. *)
Theorem C7_ascending_difficulty_weight
    problemRepo arrival r userID count :
  (forall res err r',
     SelectProblemsForContest problemRepo arrival r userID count
     = Some ((res, err), r') ->
     forall i j a b,
       (i < j)%nat -> res !! i = Some a -> res !! j = Some b ->
       Weight (p_Difficulty a) <= Weight (p_Difficulty b)) /\
  (valid_count count -> repo_fits problemRepo userID ->
   exists res err r',
     SelectProblemsForContest problemRepo arrival r userID count
     = Some ((res, err), r')).
Proof.
  split.
  - intros res err r'. unfold SelectProblemsForContest, selectWith.
    destruct (selectByDistribution _ _ _) as [st |]; [| discriminate].
    intros [= Hfin _].
    pose proof (finishSelection_ordered count (selectedProblems st)) as Hord.
    rewrite Hfin in Hord. cbn [fst] in Hord.
    exact (ordered_positions (fun p => Weight (p_Difficulty p)) res Hord).
  - intros Hc Hfit.
    destruct (SelectProblemsForContest_returns problemRepo arrival r userID
                count Hc Hfit) as (st & _ & Hret).
    rewrite Hret. destruct (finishSelection _ _) as [res err].
    by eexists _, _, _.
Qed.

Lemma C7_ascending_difficulty_weight_witness :
  exists res r',
    SelectProblemsForContest (sampleRepo 3 3 3)
      [DifficultyHard; DifficultyMedium; DifficultyEasy] sampleRand 7%N 5
    = Some ((res, None), r') /\
    Weight <$> (p_Difficulty <$> res) = [1; 1; 2; 2; 3] /\
    (forall a b, res !! 1%nat = Some a -> res !! 4%nat = Some b ->
                 Weight (p_Difficulty a) <= Weight (p_Difficulty b)).
Proof.
  destruct (C7_ascending_difficulty_weight (sampleRepo 3 3 3)
              [DifficultyHard; DifficultyMedium; DifficultyEasy]
              sampleRand 7%N 5) as [Hany _].
  eexists _, _. split; [vm_compute; reflexivity |].
  split; [vm_compute; reflexivity |].
  intros a b Ha Hb.
  refine (Hany _ None _ ltac:(vm_compute; reflexivity) 1%nat 4%nat a b
            ltac:(lia) Ha Hb).
Defined.

(** With every tier holding its target, the three draws have exactly the
    sizes of the targets. *)
Lemma selectWith_full_supply distribution problemsByDifficulty count r :
  valid_distribution distribution -> pools_fit problemsByDifficulty ->
  Forall (fun diff =>
            at_int distribution diff <= len (at_pool problemsByDifficulty diff))
         difficulties ->
  0 < easy (plan_of distribution) + medium (plan_of distribution)
      + hard (plan_of distribution) ->
  exists res r',
    selectWith distribution problemsByDifficulty count r
    = Some ((res, None), r') /\
    len res = easy (plan_of distribution) + medium (plan_of distribution)
              + hard (plan_of distribution).
Proof.
  intros Hd Hfit Hsupply Hpos. cbn [plan_of easy medium hard] in *.
  apply Forall_cons in Hsupply as [SE Hsupply].
  apply Forall_cons in Hsupply as [SM Hsupply].
  apply Forall_cons in Hsupply as [SH _].
  destruct (selectByDistribution_returns distribution problemsByDifficulty r
              Hd Hfit)
    as (e & m & h & sf & r' & Hsel & _ & _ & _ & Hle & Hlm & Hlh & _).
  assert (len e = at_int distribution DifficultyEasy) as Le by lia.
  rewrite Le in *.
  assert (len m = at_int distribution DifficultyMedium) as Lm by lia.
  rewrite Lm in *.
  assert (len h = at_int distribution DifficultyHard) as Lh by lia.
  unfold selectWith. rewrite Hsel. cbn [selectedProblems sel_rng].
  destruct (finishSelection_cases count (e ++ m ++ h))
    as [(Hnil & _) | (_ & ->)].
  - assert (len (e ++ m ++ h) = 0) as Hz by (by rewrite Hnil).
    rewrite !len_app in Hz. lia.
  - eexists _, _. split; [reflexivity |].
    rewrite (len_Permutation _ _ (sort_Slice_Permutation _ _)), !len_app.
    lia.
Qed.

(** C8. At the requested counts 3 and 4 the raised Hard tier makes the
    distribution [2, 1, 1] and [2, 2, 1], one more than the count in total;
    when every pool holds at least its target, that many problems, the
    count plus one, are returned as a success; and the size check leaves
    any list at least as long as the requested count untouched but for the
    sort. *)
Theorem C8_counts_3_and_4_return_one_more
    problemRepo arrival r userID count :
  let distribution := calculateDistribution count in
  let pools := fetchAll problemRepo arrival userID in
  count = 3 \/ count = 4 ->
  pools_fit pools ->
  Forall (fun diff => at_int distribution diff <= len (at_pool pools diff))
         difficulties ->
  plan_of distribution = (if count =? 3 then mkPlan 2 1 1 else mkPlan 2 2 1) /\
  easy (plan_of distribution) + medium (plan_of distribution)
    + hard (plan_of distribution) = count + 1 /\
  (exists res r',
     SelectProblemsForContest problemRepo arrival r userID count
     = Some ((res, None), r') /\ len res = count + 1) /\
  (forall requested selected,
     requested <= len selected ->
     finishSelection requested selected
     = (sort_Slice lessByWeight selected, None) /\
     len (sort_Slice lessByWeight selected) = len selected).
Proof.
  intros distribution pools Hc Hfit Hsupply.
  assert (valid_count count) as Hv.
  { unfold valid_count. rewrite int_max_eq. lia. }
  assert (plan_of distribution
          = if count =? 3 then mkPlan 2 1 1 else mkPlan 2 2 1) as Hplan.
  { destruct Hc as [-> | ->]; reflexivity. }
  assert (easy (plan_of distribution) + medium (plan_of distribution)
          + hard (plan_of distribution) = count + 1) as Hsum.
  { rewrite Hplan. destruct Hc as [-> | ->]; reflexivity. }
  split; [exact Hplan |]. split; [exact Hsum |]. split.
  - destruct (selectWith_full_supply distribution pools count r
                (calculateDistribution_valid count Hv) Hfit Hsupply
                ltac:(lia)) as (res & r' & Hret & Hlen).
    exists res, r'. split; [exact Hret | lia].
  - intros requested selected Hge. split.
    + unfold finishSelection.
      by destruct (Z.ltb_spec (len selected) requested); [lia |].
    + apply len_Permutation, sort_Slice_Permutation.
Qed.

Lemma C8_counts_3_and_4_return_one_more_witness :
  plan_of (calculateDistribution 3) = mkPlan 2 1 1 /\
  plan_of (calculateDistribution 4) = mkPlan 2 2 1 /\
  (exists res r',
     SelectProblemsForContest (sampleRepo 5 5 5) difficulties sampleRand 7%N 3
     = Some ((res, None), r') /\ len res = 4) /\
  (exists res r',
     SelectProblemsForContest (sampleRepo 5 5 5) difficulties sampleRand 7%N 4
     = Some ((res, None), r') /\ len res = 5).
Proof.
  assert (Hfit : pools_fit (fetchAll (sampleRepo 5 5 5) difficulties 7%N)).
  { unfold pools_fit, difficulties.
    repeat (apply Forall_cons; split; [vm_compute; discriminate |]).
    constructor. }
  assert (Hsupply : forall count, count = 3 \/ count = 4 ->
            Forall (fun diff =>
                      at_int (calculateDistribution count) diff
                      <= len (at_pool (fetchAll (sampleRepo 5 5 5)
                                         difficulties 7%N) diff))
                   difficulties).
  { intros count [-> | ->]; unfold difficulties;
      repeat (apply Forall_cons; split; [vm_compute; discriminate |]);
      constructor. }
  destruct (C8_counts_3_and_4_return_one_more (sampleRepo 5 5 5) difficulties
              sampleRand 7%N 3 (or_introl eq_refl) Hfit
              (Hsupply 3 (or_introl eq_refl)))
    as (H3 & _ & R3 & _).
  destruct (C8_counts_3_and_4_return_one_more (sampleRepo 5 5 5) difficulties
              sampleRand 7%N 4 (or_intror eq_refl) Hfit
              (Hsupply 4 (or_intror eq_refl)))
    as (H4 & _ & R4 & _).
  split; [exact H3 |]. split; [exact H4 |]. split; [exact R3 | exact R4].
Defined.

(** ** Contest creation *)

Lemma first_by_id_from rows : forall best c,
  foldl (fun best c =>
           match best with
           | None => Some c
           | Some b => if (c_ID c <? c_ID b)%N then Some c else Some b
           end) best rows = Some c ->
  best = Some c \/ c ∈ rows.
Proof.
  induction rows as [| x rows IH]; intros best c H; cbn in H; [by left |].
  apply IH in H as [H | H]; [| right; by right].
  destruct best as [b |].
  - destruct (c_ID x <? c_ID b)%N; injection H as <-; [right; by left | by left].
  - injection H as <-. right. by left.
Qed.

Lemma activeRow_found userID w c :
  activeRow userID w = Some c ->
  c ∈ w_contests w /\ c_UserID c = userID /\ c_Status c = ContestStatusActive.
Proof.
  unfold activeRow, first_by_id. intros H.
  apply first_by_id_from in H as [H | H]; [discriminate |].
  apply list_elem_of_filter in H as [[Hu Hs] Hin]. done.
Qed.

Lemma IsExpired_preloaded w c now :
  IsExpired (preloadProblems w c) now = IsExpired c now.
Proof. reflexivity. Qed.

Lemma IsExpired_active c now :
  c_Status c = ContestStatusActive ->
  IsExpired c now
  = bool_decide (c_StartedAt c + GoInt.mul (c_DurationMinutes c) Minute < now).
Proof.
  intros Hs. unfold IsExpired. rewrite Hs. cbn [negb String.eqb].
  change (negb (String.eqb ContestStatusActive ContestStatusActive)) with false.
  cbn iota. rewrite Z.gtb_ltb.
  destruct (Z.ltb_spec (c_StartedAt c + GoInt.mul (c_DurationMinutes c) Minute)
              now).
  - by rewrite bool_decide_eq_true_2.
  - rewrite bool_decide_eq_false_2; [done | lia].
Qed.

Lemma db_call_error w e w' :
  db_call w = (Some e, w') -> exists msg, e = ErrDatabase msg.
Proof.
  unfold db_call. destruct (w_faults w (w_calls w)) as [msg |]; cbn.
  - intros [= <- _]. by exists msg.
  - discriminate.
Qed.

Lemma Create_error contest w contest' e w' :
  Create contest w = ((contest', Some e), w') -> exists msg, e = ErrDatabase msg.
Proof.
  unfold Create. destruct (db_call w) as [[e0 |] w0] eqn:Hcall.
  - intros [= _ <- _]. by eapply db_call_error.
  - destruct (c_ID contest =? 0)%N.
    + destruct (gen_random_uuid w0). discriminate.
    + destruct (bool_decide _); [| discriminate].
      intros [= _ <- _]. by eexists.
Qed.

Lemma AddProblems_error contestID problems w problems' e w' :
  AddProblems contestID problems w = ((problems', Some e), w') ->
  exists msg, e = ErrDatabase msg.
Proof.
  unfold AddProblems. destruct (db_call w) as [[e0 |] w0] eqn:Hcall.
  - intros [= _ <- _]. by eapply db_call_error.
  - discriminate.
Qed.

Lemma SelectProblemsForContest_error problemRepo arrival r userID count
    res e r' :
  SelectProblemsForContest problemRepo arrival r userID count
  = Some ((res, Some e), r') ->
  e = ErrNotEnoughProblems /\ res = [].
Proof.
  unfold SelectProblemsForContest, selectWith.
  destruct (selectByDistribution _ _ _) as [st |]; [| discriminate].
  destruct (finishSelection_cases count (selectedProblems st))
    as [(_ & _ & ->) | (_ & ->)]; intros [= ? ?]; by subst.
Qed.

(** The errors the creation phase can end with. *)
Lemma createContest_errors problemRepo arrival userID req w out e w' :
  createContest problemRepo arrival userID req w = Some ((out, Some e), w') ->
  e = ErrNotEnoughProblems \/ exists msg, e = ErrDatabase msg.
Proof.
  unfold createContest.
  destruct (SelectProblemsForContest _ _ _ _ _)
    as [[[problems [es |]] r] |] eqn:Hsel; [| | discriminate].
  { intros [= _ <- _]. left.
    by apply SelectProblemsForContest_error in Hsel as [? _]. }
  destruct (Now _) as [startedAt w1].
  destruct (Create _ w1) as [[contest [ec |]] w2] eqn:Hcreate.
  { intros [= _ <- _]. right. by eapply Create_error. }
  destruct (AddProblems _ _ w2) as [[cps [ea |]] w3] eqn:Hadd.
  - destruct (Delete _ w3). intros [= _ <- _]. right.
    by eapply AddProblems_error.
  - discriminate.
Qed.


Lemma checkActiveContest_free userID w :
  w_faults w (w_calls w) = None -> activeRow userID w = None ->
  checkActiveContest userID w = (None, snd (db_call w)).
Proof.
  intros Hf Hrow. unfold checkActiveContest, FindActiveByUserID, db_call.
  rewrite Hf. cbn [fmap option_fmap option_map snd].
  unfold activeRow in *. cbn [w_contests]. by rewrite Hrow.
Qed.

Lemma checkActiveContest_running userID w c :
  w_faults w (w_calls w) = None -> activeRow userID w = Some c ->
  IsExpired c (w_clock w (w_reads w)) = false ->
  fst (checkActiveContest userID w) = Some ErrActiveContestExists.
Proof.
  intros Hf Hrow Hexp. unfold checkActiveContest, FindActiveByUserID, db_call.
  rewrite Hf. cbn [fmap option_fmap option_map].
  unfold activeRow in *. cbn [w_contests]. rewrite Hrow.
  unfold Now. cbn [w_clock w_reads].
  by rewrite IsExpired_preloaded, Hexp.
Qed.


(** The expired scenario, run: the old contest is completed, a new one is
    created and its five problems are stored at positions 1 to 5. *)
Example expired_contest_run :
  (fun x =>
     (option_map (fun c => (c_ID c, c_Status c,
                            map cp_Order (c_ContestProblems c)))
                 (fst (fst x)),
      snd (fst x),
      map (fun c => (c_ID c, c_Status c, c_EndedAt c)) (w_contests (snd x)),
      map (fun cp => (cp_ContestID cp, cp_Order cp))
          (w_contest_problems (snd x))))
    <$> CreateContest (sampleRepo 3 3 3) difficulties 7%N sampleRequest
          (sampleWorld (31 * Minute))
  = Some (Some (41%N, "active", [1; 2; 3; 4; 5]), None,
          [(40%N, "completed", Some (31 * Minute + 1)); (41%N, "active", None)],
          [(41%N, 1); (41%N, 2); (41%N, 3); (41%N, 4); (41%N, 5)]).
Proof. vm_compute. reflexivity. Qed.

Example running_contest_run :
  (fun x => (fst x, w_contests (snd x)))
    <$> CreateContest (sampleRepo 3 3 3) difficulties 7%N sampleRequest
          (sampleWorld (29 * Minute))
  = Some ((None, Some ErrActiveContestExists), [sampleContest]).
Proof. vm_compute. reflexivity. Qed.

(** ** The stored problem rows *)

Lemma selectWith_length distribution problemsByDifficulty count r res err r' :
  valid_distribution distribution -> pools_fit problemsByDifficulty ->
  selectWith distribution problemsByDifficulty count r
  = Some ((res, err), r') ->
  len res <= at_int distribution DifficultyEasy
             + at_int distribution DifficultyMedium
             + at_int distribution DifficultyHard.
Proof.
  intros Hd Hfit.
  destruct (selectByDistribution_returns distribution problemsByDifficulty r
              Hd Hfit)
    as (e & m & h & sf & r1 & Hsel & _ & _ & _ & Hle & Hlm & Hlh & _).
  destruct Hd as (HE & HM & HH & _).
  unfold selectWith. rewrite Hsel. cbn [selectedProblems sel_rng].
  pose proof (len_nonneg e). pose proof (len_nonneg m).
  pose proof (len_nonneg h).
  destruct (finishSelection_cases count (e ++ m ++ h))
    as [(_ & _ & ->) | (_ & ->)]; intros [= <- _ _].
  - change (len (@nil Problem)) with 0. lia.
  - rewrite (len_Permutation _ _ (sort_Slice_Permutation _ _)), !len_app.
    lia.
Qed.

Lemma SelectProblemsForContest_fits problemRepo arrival r userID count
    res err r' :
  valid_count count -> repo_fits problemRepo userID ->
  SelectProblemsForContest problemRepo arrival r userID count
  = Some ((res, err), r') ->
  fits res.
Proof.
  intros Hc Hfit Hret.
  pose proof (calculateDistribution_valid count Hc) as Hd.
  eapply selectWith_length in Hret;
    [| exact Hd | by apply fetchAll_fits].
  destruct Hd as (_ & _ & _ & Hsum). unfold fits. lia.
Qed.

Lemma contestProblemsOf_lookup contestID problems i p :
  fits problems -> problems !! i = Some p ->
  contestProblemsOf contestID problems !! i
  = Some (mkContestProblem contestID (p_ID p) (Z.of_nat i + 1) false p).
Proof.
  intros Hfit Hi. unfold contestProblemsOf.
  rewrite list_lookup_imap, Hi. cbn.
  apply lookup_lt_Some in Hi. unfold fits, len in Hfit.
  rewrite add_exact; [done |]. int_bounds. lia.
Qed.

Lemma contestProblemsOf_length contestID problems :
  length (contestProblemsOf contestID problems) = length problems.
Proof. apply length_imap. Qed.

Lemma contestProblemsOf_orders contestID problems :
  fits problems ->
  cp_Order <$> contestProblemsOf contestID problems = seqZ 1 (len problems).
Proof.
  intros Hfit. apply list_eq. intros i.
  rewrite list_lookup_fmap.
  destruct (problems !! i) as [p |] eqn:Hi.
  - rewrite (contestProblemsOf_lookup _ _ _ _ Hfit Hi). cbn.
    apply lookup_lt_Some in Hi.
    rewrite lookup_seqZ_lt by (unfold len; lia). f_equal. lia.
  - apply lookup_ge_None in Hi.
    rewrite (proj2 (lookup_ge_None _ _))
      by (rewrite contestProblemsOf_length; lia).
    cbn. symmetry. apply lookup_seqZ_ge. unfold len. lia.
Qed.

Lemma contestProblemsOf_problems contestID problems :
  cp_Problem <$> contestProblemsOf contestID problems = problems.
Proof.
  unfold contestProblemsOf. apply list_eq. intros i.
  rewrite list_lookup_fmap, list_lookup_imap.
  by destruct (problems !! i).
Qed.

(** Stamping the key of the contest on rows that carry it changes nothing. *)
Lemma contestProblemsOf_stamped contestID problems :
  map (fun cp => mkContestProblem contestID (cp_ProblemID cp) (cp_Order cp)
                   (cp_IsCompleted cp) (cp_Problem cp))
      (contestProblemsOf contestID problems)
  = contestProblemsOf contestID problems.
Proof.
  unfold contestProblemsOf.
  change (map ?f ?l) with (f <$> l).
  rewrite fmap_imap. by apply imap_ext.
Qed.

Lemma checkActiveContest_keeps userID w err w1 :
  checkActiveContest userID w = (err, w1) ->
  w_rng w1 = w_rng w /\ w_contest_problems w1 = w_contest_problems w.
Proof.
  unfold checkActiveContest, FindActiveByUserID, db_call, Now, Update, db_call.
  destruct (w_faults w (w_calls w)); cbn [fmap option_fmap option_map].
  { by intros [= _ <-]. }
  destruct (activeRow userID _); [| by intros [= _ <-]].
  destruct (IsExpired _ _); [| by intros [= _ <-]].
  cbn [w_faults w_calls].
  destruct (w_faults w (S (w_calls w))); cbn [fmap option_fmap option_map];
    by intros [= _ <-].
Qed.

(** What a successful creation phase has done. *)
Lemma createContest_success problemRepo arrival userID req w contest w' :
  createContest problemRepo arrival userID req w
  = Some ((Some contest, None), w') ->
  exists problems r',
    SelectProblemsForContest problemRepo arrival (w_rng w) userID
      (ProblemCount req) = Some ((problems, None), r') /\
    c_ContestProblems contest = contestProblemsOf (c_ID contest) problems /\
    w_contest_problems w'
    = w_contest_problems w ++ contestProblemsOf (c_ID contest) problems /\
    c_UserID contest = userID /\
    c_Status contest = ContestStatusActive.
Proof.
  unfold createContest.
  destruct (SelectProblemsForContest _ _ _ _ _)
    as [[[problems [es |]] r] |]; [discriminate | | discriminate].
  unfold Now, Create, AddProblems, db_call, gen_random_uuid.
  cbn -[contestProblemsOf].
  destruct (w_faults w (w_calls w)); cbn -[contestProblemsOf];
    [discriminate |].
  destruct (w_faults w (S (w_calls w))); cbn -[contestProblemsOf].
  { case_match; discriminate. }
  rewrite contestProblemsOf_stamped.
  intros [= <- <-]. exists problems, r. cbn -[contestProblemsOf]. done.
Qed.






(** C10. When [CreateContest] succeeds, the rows it stores for the new
    contest and attaches to it are built from the selected list in its
    order: the problem at index [i] (from 0) is stored with [Order = i + 1],
    so the orders are 1, 2, ..., n without a gap. *)
Theorem C10_positions_are_one_based
    problemRepo arrival userID req w contest w' :
  valid_count (ProblemCount req) -> repo_fits problemRepo userID ->
  CreateContest problemRepo arrival userID req w
  = Some ((Some contest, None), w') ->
  exists problems r',
    SelectProblemsForContest problemRepo arrival (w_rng w) userID
      (ProblemCount req) = Some ((problems, None), r') /\
    c_ContestProblems contest = contestProblemsOf (c_ID contest) problems /\
    w_contest_problems w'
    = w_contest_problems w ++ c_ContestProblems contest /\
    cp_Order <$> c_ContestProblems contest = seqZ 1 (len problems) /\
    cp_Problem <$> c_ContestProblems contest = problems /\
    (forall i p,
       problems !! i = Some p ->
       c_ContestProblems contest !! i
       = Some (mkContestProblem (c_ID contest) (p_ID p) (Z.of_nat i + 1)
                 false p)).
Proof.
  intros Hc Hfit. unfold CreateContest.
  destruct (checkActiveContest userID w) as [[e |] w1] eqn:Hcheck;
    [discriminate |].
  apply checkActiveContest_keeps in Hcheck as [Hrng Hcps].
  intros Hret.
  apply createContest_success in Hret
    as (problems & r' & Hsel & Hrows & Hstored & _ & _).
  rewrite Hrng in Hsel. rewrite Hcps in Hstored.
  pose proof (SelectProblemsForContest_fits _ _ _ _ _ _ _ _ Hc Hfit Hsel)
    as Hlen.
  exists problems, r'. rewrite Hrows.
  split; [exact Hsel |]. split; [reflexivity |]. split; [exact Hstored |].
  split; [by apply contestProblemsOf_orders |].
  split; [apply contestProblemsOf_problems |].
  intros i p Hi. by apply contestProblemsOf_lookup.
Qed.

Lemma C10_positions_are_one_based_witness :
  exists contest,
    fst <$> CreateContest (sampleRepo 3 3 3) difficulties 7%N
              sampleRequest (sampleWorld (31 * Minute))
    = Some (Some contest, None) /\
    cp_Order <$> c_ContestProblems contest = [1; 2; 3; 4; 5] /\
    cp_ProblemID <$> c_ContestProblems contest
    = p_ID <$> (cp_Problem <$> c_ContestProblems contest).
Proof.
  assert (Hc : valid_count (ProblemCount sampleRequest))
    by (vm_compute; split; discriminate).
  assert (Hfit : repo_fits (sampleRepo 3 3 3) 7%N).
  { unfold repo_fits, difficulties.
    repeat (apply Forall_cons; split; [vm_compute; discriminate |]).
    constructor. }
  pose proof (C10_positions_are_one_based (sampleRepo 3 3 3) difficulties
                7%N sampleRequest (sampleWorld (31 * Minute))) as Hthm.
  assert ((fun x => (bool_decide (is_Some (fst (fst x))), snd (fst x)))
            <$> CreateContest (sampleRepo 3 3 3) difficulties 7%N
                  sampleRequest (sampleWorld (31 * Minute))
          = Some (true, None)) as Hok by (vm_compute; reflexivity).
  destruct (CreateContest (sampleRepo 3 3 3) difficulties 7%N sampleRequest
              (sampleWorld (31 * Minute)))
    as [[[[contest |] err] w'] |]; try discriminate Hok.
  injection Hok as ->.
  destruct (Hthm contest w' Hc Hfit eq_refl)
    as (problems & r' & Hsel & Hrows & _ & Horders & Hprobs & _).
  exists contest. split; [reflexivity |].
  assert (len problems = 5) as Hlen.
  { vm_compute in Hsel. injection Hsel as <- _. reflexivity. }
  split.
  - rewrite Horders, Hlen. reflexivity.
  - rewrite Hprobs, Hrows. unfold contestProblemsOf.
    apply list_eq. intros i.
    rewrite !list_lookup_fmap, list_lookup_imap.
    by destruct (problems !! i).
Defined.

(** ** Outside the validated range

    The request validation admits counts from 1 on. Below that the selection
    is not covered by the properties above: a count of 0 passes the size
    check with an empty list, and a negative count makes [randomSelect]
    panic on its final reslicing. *)
Example zero_count_run :
  fst <$> SelectProblemsForContest (sampleRepo 0 0 0) difficulties sampleRand
            7%N 0
  = Some ([], None).
Proof. vm_compute. reflexivity. Qed.

Example negative_count_run :
  SelectProblemsForContest (sampleRepo 2 2 2) difficulties sampleRand 7%N (-1)
  = None.
Proof. vm_compute. reflexivity. Qed.

(** * Further properties of the selection *)

Lemma shuffle_draws ixs : forall s r s' r',
  foldl shuffle_step (Some (s, r)) ixs = Some (s', r') ->
  rand_src r' = rand_src r /\
  rand_pos r' = (rand_pos r + length ixs)%nat.
Proof.
  induction ixs as [| i ixs IH]; intros s r s' r' H.
  - injection H as _ <-. split; [done | cbn; lia].
  - cbn [foldl] in H.
    destruct (shuffle_step (Some (s, r)) i) as [[s1 r1] |] eqn:Hstep;
      [| by rewrite shuffle_panicked in H].
    apply IH in H as [Hsrc Hpos]. cbn in Hstep. unfold Intn in Hstep.
    destruct (_ <=? 0); [discriminate |].
    destruct (swap s i _); [| discriminate].
    injection Hstep as _ <-. cbn in *. split; [done | lia].
Qed.

(** X1. [randomSelect] on a count that is not negative returns
    [min n (len problems)] of the problems, each used at most as often as it
    occurs; it reads exactly [n] numbers from the generator when it has to
    choose ([n < len problems]) and none otherwise. *)
Theorem X1_randomSelect_draws_exactly r problems n :
  fits problems -> 0 <= n ->
  exists selected r',
    randomSelect r problems n = Some (selected, r') /\
    selected ⊆+ problems /\
    len selected = Z.min n (len problems) /\
    rand_src r' = rand_src r /\
    rand_pos r'
    = (rand_pos r + (if (n <? len problems)%Z then Z.to_nat n else 0))%nat.
Proof.
  intros Hfit Hn.
  destruct (randomSelect_returns r problems n Hfit Hn)
    as (selected & r' & Hret).
  exists selected, r'. split; [exact Hret |].
  destruct (randomSelect_drawn r problems n selected r' Hret)
    as (Hsub & Hall & Hpart).
  split; [exact Hsub |].
  unfold randomSelect in Hret.
  destruct (Z.ltb_spec n (len problems)) as [Hlt | Hge].
  - destruct (Z.leb_spec (len problems) n); [lia |].
    destruct (foldl _ _ _) as [[s rs] |] eqn:Hsh; [| discriminate].
    apply shuffle_draws in Hsh as [Hsrc Hpos].
    destruct (slice_to s n); [| discriminate].
    injection Hret as _ <-. rewrite length_seqZ in Hpos.
    split; [rewrite Hpart by lia; lia |]. done.
  - destruct (Z.leb_spec (len problems) n); [| lia].
    injection Hret as <- <-.
    split; [lia |]. split; [done | lia].
Qed.

Lemma X1_randomSelect_draws_exactly_witness :
  exists selected r',
    randomSelect sampleRand (samplePool 100 10 DifficultyMedium) 5
    = Some (selected, r') /\
    len selected = 5 /\ rand_pos r' = 5%nat.
Proof.
  destruct (X1_randomSelect_draws_exactly sampleRand
              (samplePool 100 10 DifficultyMedium) 5
              ltac:(vm_compute; discriminate) ltac:(lia))
    as (selected & r' & Hret & _ & Hlen & _ & Hpos).
  exists selected, r'. split; [exact Hret |]. split; [exact Hlen | exact Hpos].
Defined.

(** X2. Outside the validated range of the count: a count of 0 returns an
    empty list without error whatever the pools hold, and every negative
    count makes the selection panic (in [randomSelect], on the Easy tier). *)
Theorem X2_unvalidated_count problemRepo arrival r userID count :
  GoInt.int_min <= count <= 0 ->
  SelectProblemsForContest problemRepo arrival r userID count
  = if count =? 0 then Some (([], None), r) else None.
Proof.
  intros [Hmin Hmax]. unfold SelectProblemsForContest, selectWith.
  assert (calculateDistribution count = <[DifficultyEasy := count]> ∅) as ->.
  { unfold calculateDistribution.
    destruct (Z.leb_spec count 3); [| lia].
    destruct (Z.leb_spec 2 count); [lia |].
    by destruct (Z.leb_spec 3 count); [lia |]. }
  set (pools := fetchAll problemRepo arrival userID).
  destruct (Z.eqb_spec count 0) as [-> | Hneg].
  - assert (forall (r0 : Rand) l, randomSelect r0 l 0 = Some ([], r0)) as Hzero.
    { intros r0 l. unfold randomSelect.
      destruct (Z.leb_spec (len l) 0) as [Hl |].
      - pose proof (len_nonneg l).
        assert (len l = 0) as Hz by lia. apply len_zero in Hz. by subst.
      - rewrite seqZ_nil by lia. cbn [foldl]. unfold slice_to.
        pose proof (len_nonneg l).
        by destruct (Z.leb_spec 0 (len l)); [| lia]. }
    assert (forall sel diff,
              selectTier (<[DifficultyEasy := 0]> ∅) pools
                (Some (mkSelection sel 0 r)) diff
              = Some (mkSelection sel 0 r)) as Htier.
    { intros sel diff. unfold selectTier. cbn [shortfall selectedProblems sel_rng].
      assert (at_int (<[DifficultyEasy := 0]> ∅) diff = 0) as ->.
      { unfold at_int. destruct (decide (diff = DifficultyEasy)) as [-> | ?].
        - by rewrite lookup_insert_eq.
        - by rewrite lookup_insert_ne, lookup_empty. }
      change (GoInt.add 0 0) with 0.
      pose proof (len_nonneg (at_pool pools diff)).
      destruct (Z.ltb_spec (len (at_pool pools diff)) 0); [lia |].
      by rewrite Hzero, app_nil_r. }
    unfold selectByDistribution, difficulties. cbn [foldl].
    by rewrite !Htier.
  - unfold selectByDistribution, difficulties. cbn [foldl].
    assert (selectTier (<[DifficultyEasy := count]> ∅) pools
              (Some (mkSelection [] 0 r)) DifficultyEasy = None) as ->.
    { unfold selectTier. cbn [shortfall selectedProblems sel_rng].
      rewrite at_int_insert_eq, add_exact by (int_bounds; lia).
      rewrite Z.add_0_r.
      pose proof (len_nonneg (at_pool pools DifficultyEasy)).
      destruct (Z.ltb_spec (len (at_pool pools DifficultyEasy)) count);
        [lia |].
      by rewrite randomSelect_negative by lia. }
    reflexivity.
Qed.

Lemma X2_unvalidated_count_witness :
  SelectProblemsForContest (sampleRepo 2 2 2) difficulties sampleRand 7%N (-3)
  = None /\
  SelectProblemsForContest (sampleRepo 2 2 2) difficulties sampleRand 7%N 0
  = Some (([], None), sampleRand).
Proof.
  split.
  - exact (X2_unvalidated_count (sampleRepo 2 2 2) difficulties sampleRand
             7%N (-3) ltac:(vm_compute; split; discriminate)).
  - exact (X2_unvalidated_count (sampleRepo 2 2 2) difficulties sampleRand
             7%N 0 ltac:(vm_compute; split; discriminate)).
Defined.

(** X3. The order in which the three fetch workers deliver their results
    has no influence on the outcome: two orders of arrival of the same
    results give the same selection, from the same generator. *)
Theorem X3_arrival_order_irrelevant
    problemRepo arrival1 arrival2 r userID count :
  arrival1 ≡ₚ arrival2 ->
  SelectProblemsForContest problemRepo arrival1 r userID count
  = SelectProblemsForContest problemRepo arrival2 r userID count.
Proof.
  intros Hp. unfold SelectProblemsForContest. apply selectWith_pool_ext.
  apply Forall_forall. intros diff _.
  destruct (decide (diff ∈ arrival1)) as [Hin | Hout].
  - rewrite (fetchAll_pool _ arrival1) by done.
    rewrite (fetchAll_pool _ arrival2); [done | by rewrite <- Hp].
  - rewrite (fetchAll_pool_absent _ arrival1) by done.
    rewrite (fetchAll_pool_absent _ arrival2); [done | by rewrite <- Hp].
Qed.

Lemma X3_arrival_order_irrelevant_witness :
  SelectProblemsForContest (sampleRepo 3 3 3)
    [DifficultyMedium; DifficultyEasy; DifficultyHard] sampleRand 7%N 5
  = SelectProblemsForContest (sampleRepo 3 3 3)
      [DifficultyEasy; DifficultyMedium; DifficultyHard] sampleRand 7%N 5.
Proof.
  apply X3_arrival_order_irrelevant. apply perm_swap.
Defined.

(** X4. On a valid request the selection never returns more problems than
    the distribution asks for in total, that is the requested count, or one
    more at the counts 3 and 4; nor more than the three pools hold. *)
Theorem X4_selection_size_bounds problemRepo arrival r userID count :
  valid_count count -> repo_fits problemRepo userID ->
  exists res err r',
    SelectProblemsForContest problemRepo arrival r userID count
    = Some ((res, err), r') /\
    len res <= (if (count =? 3) || (count =? 4) then count + 1 else count) /\
    len res <= len (at_pool (fetchAll problemRepo arrival userID) DifficultyEasy)
               + len (at_pool (fetchAll problemRepo arrival userID)
                        DifficultyMedium)
               + len (at_pool (fetchAll problemRepo arrival userID)
                        DifficultyHard).
Proof.
  intros Hc Hfit.
  destruct (SelectProblemsForContest_returns problemRepo arrival r userID
              count Hc Hfit) as (st & _ & Hret).
  destruct (finishSelection count (selectedProblems st)) as [res err] eqn:Hfin.
  exists res, err, (sel_rng st). split; [exact Hret |].
  pose proof Hret as Hlen. unfold SelectProblemsForContest in Hlen.
  apply selectWith_length in Hlen;
    [| by apply calculateDistribution_valid | by apply fetchAll_fits].
  pose proof (closed_form_sum count (proj1 Hc)) as Hsum.
  rewrite <- (calculateDistribution_closed count Hc) in Hsum. cbn in Hsum.
  destruct Hsum as (_ & _ & _ & Hsum). rewrite Hsum in Hlen.
  split; [exact Hlen |].
  apply selectWith_from_pools in Hret. apply submseteq_length in Hret.
  rewrite !length_app in Hret. unfold len. lia.
Qed.

Lemma X4_selection_size_bounds_witness :
  exists res err r',
    SelectProblemsForContest (sampleRepo 1 1 0) difficulties sampleRand 7%N 4
    = Some ((res, err), r') /\
    len res <= 5 /\ len res <= 2.
Proof.
  assert (Hc : valid_count 4) by (vm_compute; split; discriminate).
  assert (Hfit : repo_fits (sampleRepo 1 1 0) 7%N).
  { unfold repo_fits, difficulties.
    repeat (apply Forall_cons; split; [vm_compute; discriminate |]).
    constructor. }
  destruct (X4_selection_size_bounds (sampleRepo 1 1 0) difficulties
              sampleRand 7%N 4 Hc Hfit)
    as (res & err & r' & Hret & Hcount & Hpools).
  exists res, err, r'. split; [exact Hret |]. split; [exact Hcount |].
  exact Hpools.
Defined.

Lemma submseteq_tier diff pool l :
  Forall (fun p => p_Difficulty p = diff) pool -> l ⊆+ pool ->
  Forall (fun p => p_Difficulty p = diff) l.
Proof.
  intros Hpool Hsub. rewrite Forall_forall in *. intros p Hp.
  apply Hpool. by eapply elem_of_submseteq.
Qed.

(** X5. When every pool holds at least its target, a valid request is
    filled exactly as the distribution says: the returned list has Easy,
    Medium and Hard problems in the numbers of the three targets. *)
Theorem X5_full_supply_fills_each_tier problemRepo arrival r userID count :
  let distribution := calculateDistribution count in
  let pools := fetchAll problemRepo arrival userID in
  valid_count count -> pools_fit pools -> tiered pools ->
  Forall (fun diff => at_int distribution diff <= len (at_pool pools diff))
         difficulties ->
  exists res r',
    SelectProblemsForContest problemRepo arrival r userID count
    = Some ((res, None), r') /\
    countOf DifficultyEasy res = easy (plan_of distribution) /\
    countOf DifficultyMedium res = medium (plan_of distribution) /\
    countOf DifficultyHard res = hard (plan_of distribution) /\
    len res = easy (plan_of distribution) + medium (plan_of distribution)
              + hard (plan_of distribution).
Proof.
  intros distribution pools Hc Hfit Htier Hsupply.
  pose proof (calculateDistribution_valid count Hc) as Hd.
  fold distribution in Hd.
  destruct (selectByDistribution_returns distribution pools r Hd Hfit)
    as (e & m & h & sf & r' & Hsel & Hse & Hsm & Hsh & Hle & Hlm & Hlh & _).
  apply Forall_cons in Hsupply as [SE Hsupply].
  apply Forall_cons in Hsupply as [SM Hsupply].
  apply Forall_cons in Hsupply as [SH _].
  apply Forall_cons in Htier as [TE Htier].
  apply Forall_cons in Htier as [TM Htier].
  apply Forall_cons in Htier as [TH _].
  assert (len e = at_int distribution DifficultyEasy) as Le by lia.
  rewrite Le in *.
  assert (len m = at_int distribution DifficultyMedium) as Lm by lia.
  rewrite Lm in *.
  assert (len h = at_int distribution DifficultyHard) as Lh by lia.
  pose proof (closed_form_sum count (proj1 Hc)) as Hsum.
  rewrite <- (calculateDistribution_closed count Hc) in Hsum.
  fold distribution in Hsum. cbn [plan_of easy medium hard] in *.
  unfold SelectProblemsForContest, selectWith. fold distribution pools.
  rewrite Hsel. cbn [selectedProblems sel_rng].
  destruct (finishSelection_cases count (e ++ m ++ h))
    as [(Hnil & _) | (_ & ->)].
  { assert (len (e ++ m ++ h) = 0) as Hz by (by rewrite Hnil).
    rewrite !len_app in Hz. destruct Hc.
    destruct ((count =? 3) || (count =? 4)); lia. }
  pose proof (sort_Slice_Permutation lessByWeight (e ++ m ++ h)) as Hperm.
  eexists _, _. split; [reflexivity |].
  rewrite !(countOf_Permutation _ _ _ Hperm), !countOf_app.
  rewrite !(countOf_tier _ _ _ e TE Hse), !(countOf_tier _ _ _ m TM Hsm),
    !(countOf_tier _ _ _ h TH Hsh).
  rewrite (len_Permutation _ _ Hperm), !len_app.
  repeat case_decide; try done. lia.
Qed.

Lemma X5_full_supply_fills_each_tier_witness :
  exists res r',
    SelectProblemsForContest (sampleRepo 45 80 25) difficulties sampleRand
      7%N 5 = Some ((res, None), r') /\
    countOf DifficultyEasy res = 2 /\
    countOf DifficultyMedium res = 2 /\
    countOf DifficultyHard res = 1 /\
    len res = 5.
Proof.
  apply (X5_full_supply_fills_each_tier (sampleRepo 45 80 25) difficulties
           sampleRand 7%N 5).
  - vm_compute. split; discriminate.
  - unfold pools_fit, difficulties.
    repeat (apply Forall_cons; split; [vm_compute; discriminate |]).
    constructor.
  - unfold tiered, difficulties.
    repeat (apply Forall_cons; split;
            [apply (bool_decide_unpack _); vm_compute; exact I |]).
    constructor.
  - unfold difficulties.
    repeat (apply Forall_cons; split; [vm_compute; discriminate |]).
    constructor.
Defined.

(** X6. The shape of the distribution on a valid count: from 3 on every
    tier gets at least one problem, below 3 no Hard problem is asked for,
    and from 4 on Medium is never asked for less than Easy. *)
Theorem X6_distribution_shape count :
  valid_count count ->
  let p := plan_of (calculateDistribution count) in
  (3 <= count -> 1 <= easy p /\ 1 <= medium p /\ 1 <= hard p) /\
  (count < 3 -> hard p = 0 /\ 1 <= easy p) /\
  (4 <= count -> easy p <= medium p).
Proof.
  intros Hc. rewrite (calculateDistribution_closed count Hc).
  destruct Hc as [H1 _]. destruct (Z_le_gt_dec count 10) as [Hs | Hl].
  - assert (count = 1 \/ count = 2 \/ count = 3 \/ count = 4 \/ count = 5 \/
            count = 6 \/ count = 7 \/ count = 8 \/ count = 9 \/ count = 10)
      as Hcases by lia.
    repeat (destruct Hcases as [-> | Hcases]); try subst count; vm_compute;
      repeat split; intros; congruence.
  - pose proof (Z.div_mod count 4 ltac:(lia)) as D4.
    pose proof (Z.mod_pos_bound count 4 ltac:(lia)) as B4.
    pose proof (Z.div_mod count 2 ltac:(lia)) as D2.
    pose proof (Z.mod_pos_bound count 2 ltac:(lia)) as B2.
    unfold closed_form.
    repeat match goal with
           | |- context [?a <=? ?b] => destruct (Z.leb_spec a b); try lia
           | |- context [?a =? ?b] => destruct (Z.eqb_spec a b); try lia
           end.
    cbn. repeat split; intros; lia.
Qed.

Lemma X6_distribution_shape_witness :
  plan_of (calculateDistribution 20) = mkPlan 5 10 5 /\
  1 <= easy (plan_of (calculateDistribution 20)) /\
  easy (plan_of (calculateDistribution 20))
  <= medium (plan_of (calculateDistribution 20)).
Proof.
  destruct (X6_distribution_shape 20 ltac:(vm_compute; split; discriminate))
    as (Hfloor & _ & Horder).
  split; [reflexivity |]. split.
  - apply Hfloor. lia.
  - apply Horder. lia.
Defined.

(** * Problem statistics *)

Lemma at_int_increment m k k' :
  at_int (increment m k) k'
  = if decide (k = k') then GoInt.add (at_int m k) 1 else at_int m k'.
Proof.
  unfold increment, at_int. case_decide as Hk.
  - subst. by rewrite lookup_insert_eq.
  - by rewrite lookup_insert_ne.
Qed.

Lemma occurrences_cons k k' ks :
  occurrences k (k' :: ks)
  = (if decide (k' = k) then 1 else 0) + occurrences k ks.
Proof.
  unfold occurrences, len. rewrite filter_cons.
  case_decide; cbn [length]; lia.
Qed.

Lemma occurrences_nonneg k ks : 0 <= occurrences k ks.
Proof. apply len_nonneg. Qed.

Lemma occurrences_app k ks1 ks2 :
  occurrences k (ks1 ++ ks2) = occurrences k ks1 + occurrences k ks2.
Proof. unfold occurrences. by rewrite filter_app, len_app. Qed.

Lemma foldl_increment k ks : forall m,
  0 <= at_int m k -> at_int m k + occurrences k ks <= GoInt.int_max ->
  at_int (foldl increment m ks) k = at_int m k + occurrences k ks.
Proof.
  induction ks as [| k' ks IH]; intros m H0 Hmax; cbn [foldl].
  - unfold occurrences, len. cbn. lia.
  - rewrite occurrences_cons in *. pose proof (occurrences_nonneg k ks).
    rewrite IH; rewrite at_int_increment; case_decide; subst;
      rewrite ?add_exact by (int_bounds; lia); lia.
Qed.

Lemma countProblem_fold problems : forall stats,
  Total (foldl countProblem stats problems) = Total stats /\
  ByDifficulty (foldl countProblem stats problems)
  = foldl increment (ByDifficulty stats) (p_Difficulty <$> problems) /\
  ByTopic (foldl countProblem stats problems)
  = foldl increment (ByTopic stats) (problems ≫= p_Topics).
Proof.
  induction problems as [| p problems IH]; intros stats; [done |].
  cbn [foldl]. destruct (IH (countProblem stats p)) as (-> & -> & ->).
  cbn. by rewrite foldl_app.
Qed.

Lemma occurrences_difficulty diff problems :
  occurrences diff (p_Difficulty <$> problems) = countOf diff problems.
Proof.
  unfold occurrences, countOf, len. f_equal.
  induction problems as [| p problems IH]; [done |].
  rewrite fmap_cons, !filter_cons.
  case_decide as Hd.
  - rewrite (decide_True (P := p_Difficulty p = diff)) by done.
    cbn [length]. lia.
  - by rewrite (decide_False (P := p_Difficulty p = diff)).
Qed.

Lemma countOf_le diff problems : countOf diff problems <= len problems.
Proof.
  unfold countOf, len. pose proof (length_filter (fun p => p_Difficulty p = diff) problems). lia.
Qed.

Lemma countOf_three problems :
  Forall (fun p => p_Difficulty p ∈ difficulties) problems ->
  countOf DifficultyEasy problems + countOf DifficultyMedium problems
  + countOf DifficultyHard problems = len problems.
Proof.
  induction 1 as [| p problems Hp _ IH].
  - reflexivity.
  - unfold countOf, len in *. rewrite !filter_cons. cbn [length].
    unfold difficulties in Hp. rewrite !elem_of_cons in Hp.
    destruct Hp as [-> | [-> | [-> | Hp]]]; [| | | by inversion Hp];
      repeat case_decide; try done; cbn [length]; lia.
Qed.

(** X7. [GetProblemStats] passes on the error of the repository; otherwise
    [Total] is the number of problems, [ByDifficulty] maps each difficulty
    to the number of problems carrying it (0 for one that does not occur),
    [ByTopic] maps each topic to the number of times it is listed, and when
    every problem is Easy, Medium or Hard the three difficulty counts add
    up to [Total]. *)
Theorem X7_GetProblemStats_counts problems :
  fits problems ->
  (forall e, GetProblemStats (problems, Some e) = (None, Some e)) /\
  exists stats,
    GetProblemStats (problems, None) = (Some stats, None) /\
    Total stats = len problems /\
    (forall diff, at_int (ByDifficulty stats) diff = countOf diff problems) /\
    (fits (problems ≫= p_Topics) ->
     forall topic,
       at_int (ByTopic stats) topic
       = occurrences topic (problems ≫= p_Topics)) /\
    (Forall (fun p => p_Difficulty p ∈ difficulties) problems ->
     at_int (ByDifficulty stats) DifficultyEasy
     + at_int (ByDifficulty stats) DifficultyMedium
     + at_int (ByDifficulty stats) DifficultyHard = Total stats).
Proof.
  intros Hfit. split; [done |]. eexists. split; [reflexivity |].
  destruct (countProblem_fold problems
              {| Total := len problems; ByDifficulty := ∅; ByTopic := ∅ |})
    as (-> & -> & ->). cbn [Total ByDifficulty ByTopic].
  assert (forall diff,
            at_int (foldl increment ∅ (p_Difficulty <$> problems)) diff
            = countOf diff problems) as Hdiff.
  { intros diff. rewrite foldl_increment; rewrite ?occurrences_difficulty.
    - done.
    - done.
    - pose proof (countOf_le diff problems). unfold fits in Hfit.
      change (at_int ∅ diff) with 0. lia. }
  split; [done |]. split; [exact Hdiff |]. split.
  - intros Htopics topic. rewrite foldl_increment; [done | done |].
    unfold fits in Htopics. change (at_int ∅ topic) with 0.
    unfold occurrences, len in *.
    pose proof (length_filter (fun k' => k' = topic) (problems ≫= p_Topics)).
    lia.
  - intros Hthree. rewrite !Hdiff. by apply countOf_three.
Qed.

Lemma X7_GetProblemStats_counts_witness :
  exists stats,
    GetProblemStats
      (samplePool 0 2 DifficultyEasy ++ samplePool 100 3 DifficultyHard, None)
    = (Some stats, None) /\
    Total stats = 5 /\
    at_int (ByDifficulty stats) DifficultyEasy = 2 /\
    at_int (ByDifficulty stats) DifficultyMedium = 0 /\
    at_int (ByDifficulty stats) DifficultyHard = 3.
Proof.
  destruct (X7_GetProblemStats_counts
              (samplePool 0 2 DifficultyEasy ++ samplePool 100 3 DifficultyHard)
              ltac:(vm_compute; discriminate))
    as (_ & stats & Hret & Htotal & Hdiff & _).
  exists stats. split; [exact Hret |]. split; [exact Htotal |].
  rewrite !Hdiff. repeat split; reflexivity.
Defined.

(** * The problem repository on its tables *)

Lemma imap_keys_snd {A} (key : nat -> Z) (rows : list A) :
  snd <$> imap (fun i p => (key i, p)) rows = rows.
Proof.
  apply list_eq. intros i. rewrite list_lookup_fmap, list_lookup_imap.
  by destruct (rows !! i).
Qed.

Lemma orderByRandom_Permutation random rows :
  orderByRandom random rows ≡ₚ rows.
Proof.
  unfold orderByRandom. rewrite sort_Slice_Permutation.
  by rewrite imap_keys_snd.
Qed.

Lemma solvedBy_elem submissions userID id :
  id ∈ solvedBy submissions userID <->
  exists s, s ∈ submissions /\ sub_UserID s = userID /\ sub_ProblemID s = id.
Proof.
  unfold solvedBy. rewrite list_elem_of_fmap. split.
  - intros (s & -> & Hs). apply list_elem_of_filter in Hs as [Hu Hin].
    by exists s.
  - intros (s & Hin & Hu & <-). exists s. split; [done |].
    by apply list_elem_of_filter.
Qed.

Lemma NoDup_fmap_inj_on {A B} (f : A -> B) (l : list A) x y :
  NoDup (f <$> l) -> x ∈ l -> y ∈ l -> f x = f y -> x = y.
Proof.
  induction l as [| a l IH]; intros Hnd Hx Hy Hf; [by inversion Hx |].
  rewrite fmap_cons in Hnd. apply NoDup_cons in Hnd as [Ha Hnd].
  apply elem_of_cons in Hx as [-> | Hx], Hy as [-> | Hy]; try done.
  - destruct Ha. rewrite Hf. by apply list_elem_of_fmap_2.
  - destruct Ha. rewrite <- Hf. by apply list_elem_of_fmap_2.
  - by apply IH.
Qed.

(** X8. The query for the unsolved problems of a tier, when it does not
    fail, returns exactly the problems of the catalogue that carry the
    tier's difficulty and for which the user has no submission, each as
    often as the catalogue lists it (so without duplicate when the key is
    unique), in some order; when it fails it returns the error and no
    problem. Several submissions of the user for one problem exclude it just
    as one does. *)
Theorem X8_unsolved_pool_contents db userID difficulty :
  let unsolved p :=
    ~ exists s, s ∈ pdb_submissions db /\ sub_UserID s = userID
                /\ sub_ProblemID s = p_ID p in
  (forall msg,
     pdb_fault db difficulty = Some msg ->
     dbFindUnsolvedByUserAndDifficulty db userID difficulty
     = ([], Some (ErrDatabase msg))) /\
  (pdb_fault db difficulty = None ->
   exists pool,
     dbFindUnsolvedByUserAndDifficulty db userID difficulty = (pool, None) /\
     pool ⊆+ pdb_problems db /\
     (forall p, p ∈ pool <->
                p ∈ pdb_problems db /\ p_Difficulty p = difficulty
                /\ unsolved p) /\
     (NoDup (p_ID <$> pdb_problems db) -> NoDup (p_ID <$> pool))).
Proof.
  intros unsolved. unfold dbFindUnsolvedByUserAndDifficulty. split.
  - by intros msg ->.
  - intros ->. eexists. split; [reflexivity |].
    pose proof (orderByRandom_Permutation (pdb_random db)
                  (filter (fun p =>
                             (p_ID p ∉ solvedBy (pdb_submissions db) userID)
                             /\ p_Difficulty p = difficulty)
                          (pdb_problems db))) as Hperm.
    assert (orderByRandom (pdb_random db)
              (filter (fun p =>
                         (p_ID p ∉ solvedBy (pdb_submissions db) userID)
                         /\ p_Difficulty p = difficulty)
                      (pdb_problems db)) ⊆+ pdb_problems db) as Hsub.
    { rewrite Hperm. apply sublist_submseteq, sublist_filter. }
    split; [exact Hsub |]. split.
    + intros p. rewrite Hperm, list_elem_of_filter.
      unfold unsolved. rewrite <- solvedBy_elem. tauto.
    + intros Hnd. eapply submseteq_NoDup; [| exact Hnd].
      by apply fmap_submseteq.
Qed.

Lemma X8_unsolved_pool_contents_witness :
  p_ID <$> fst (dbFindUnsolvedByUserAndDifficulty sampleProblemDB 7%N
                  DifficultyEasy) = [2%N; 0%N] /\
  (exists pool,
     dbFindUnsolvedByUserAndDifficulty sampleProblemDB 7%N DifficultyEasy
     = (pool, None) /\
     (sampleProblem 1 DifficultyEasy ∉ pool) /\
     sampleProblem 2 DifficultyEasy ∈ pool).
Proof.
  split; [vm_compute; reflexivity |].
  destruct (X8_unsolved_pool_contents sampleProblemDB 7%N DifficultyEasy)
    as [_ Hok].
  destruct (Hok eq_refl) as (pool & Hret & _ & Hmem & _).
  exists pool. split; [exact Hret |]. split.
  - rewrite Hmem. intros (_ & _ & Hun). apply Hun.
    exists (mkSubmission 900%N 7%N 1%N None 5).
    split; [by left | done].
  - apply Hmem. split; [| split; [done |]].
    + apply (list_elem_of_lookup_2 _ 2%nat). reflexivity.
    + intros (s & Hs & Hu & Hp). revert Hu Hp.
      unfold sampleProblemDB in Hs. cbn [pdb_submissions] in Hs.
      rewrite !elem_of_cons in Hs.
      destruct Hs as [-> | [-> | [-> | Hs]]]; [| | | by inversion Hs];
        cbn; intros; discriminate.
Defined.

(** The pool read for a tier is made of unsolved problems of that tier. *)
Lemma db_pool_sub db arrival userID diff :
  at_pool (fetchAll (dbProblemRepository db) arrival userID) diff
  ⊆+ filter (fun p => (p_ID p ∉ solvedBy (pdb_submissions db) userID)
                       /\ p_Difficulty p = diff)
            (pdb_problems db).
Proof.
  destruct (decide (diff ∈ arrival)) as [Hin | Hout].
  - rewrite fetchAll_pool by done. unfold fetched. cbn.
    unfold dbFindUnsolvedByUserAndDifficulty.
    destruct (pdb_fault db diff); [apply submseteq_nil_l |].
    by rewrite orderByRandom_Permutation.
  - rewrite fetchAll_pool_absent by done. apply submseteq_nil_l.
Qed.

Lemma db_pools_NoDup db arrival userID :
  NoDup (p_ID <$> pdb_problems db) ->
  let pool := at_pool (fetchAll (dbProblemRepository db) arrival userID) in
  NoDup (p_ID <$> pool DifficultyEasy ++ pool DifficultyMedium
                  ++ pool DifficultyHard).
Proof.
  intros Hnd pool.
  assert (forall diff, pool diff ⊆+ pdb_problems db) as Hsub.
  { intros diff. unfold pool. rewrite db_pool_sub.
    apply sublist_submseteq, sublist_filter. }
  assert (forall diff p, p ∈ pool diff ->
            p ∈ pdb_problems db /\ p_Difficulty p = diff) as Hmem.
  { intros diff p Hp. unfold pool in Hp.
    eapply elem_of_submseteq in Hp; [| apply db_pool_sub].
    apply list_elem_of_filter in Hp. tauto. }
  assert (forall d1 d2 id, d1 <> d2 ->
            id ∈ p_ID <$> pool d1 -> id ∈ p_ID <$> pool d2 -> False)
    as Hdisj.
  { intros d1 d2 id Hne H1 H2.
    apply list_elem_of_fmap in H1 as (p1 & -> & H1).
    apply list_elem_of_fmap in H2 as (p2 & Hid & H2).
    apply Hmem in H1 as [H1 D1]. apply Hmem in H2 as [H2 D2].
    assert (p1 = p2) by (by eapply (NoDup_fmap_inj_on p_ID)).
    congruence. }
  assert (forall diff, NoDup (p_ID <$> pool diff)) as Heach.
  { intros diff. eapply submseteq_NoDup; [| exact Hnd].
    by apply fmap_submseteq. }
  rewrite !fmap_app. apply NoDup_app. split; [apply Heach |]. split.
  - intros id H1 H23. apply elem_of_app in H23 as [H2 | H3].
    + by apply (Hdisj DifficultyEasy DifficultyMedium id).
    + by apply (Hdisj DifficultyEasy DifficultyHard id).
  - apply NoDup_app. split; [apply Heach |]. split; [| apply Heach].
    intros id H2 H3. by apply (Hdisj DifficultyMedium DifficultyHard id).
Qed.

(** X9. End to end on the database: whatever queries fail and whatever the
    generator draws, a list selected for a user holds only problems of the
    catalogue for which that user has no submission, and, the key of the
    catalogue being unique, no identifier twice. On a valid count the
    selection returns. *)
Theorem X9_selection_avoids_solved_problems db arrival r userID count :
  NoDup (p_ID <$> pdb_problems db) ->
  (forall res err r',
     SelectProblemsForContest (dbProblemRepository db) arrival r userID count
     = Some ((res, err), r') ->
     NoDup (p_ID <$> res) /\
     forall p, p ∈ res ->
       p ∈ pdb_problems db /\
       ~ exists s, s ∈ pdb_submissions db /\ sub_UserID s = userID
                   /\ sub_ProblemID s = p_ID p) /\
  (valid_count count -> fits (pdb_problems db) ->
   exists res err r',
     SelectProblemsForContest (dbProblemRepository db) arrival r userID count
     = Some ((res, err), r')).
Proof.
  intros Hnd. split.
  - intros res err r' Hret. unfold SelectProblemsForContest in Hret.
    apply selectWith_from_pools in Hret. split.
    + eapply submseteq_NoDup;
        [by apply fmap_submseteq | by apply db_pools_NoDup].
    + intros p Hp. eapply elem_of_submseteq in Hp; [| exact Hret].
      rewrite !elem_of_app in Hp.
      assert (exists diff,
                p ∈ at_pool (fetchAll (dbProblemRepository db) arrival userID)
                      diff) as [diff Hd]
        by (destruct Hp as [? | [? | ?]]; eauto).
      eapply elem_of_submseteq in Hd; [| apply db_pool_sub].
      apply list_elem_of_filter in Hd as [[Hun _] Hin].
      split; [exact Hin |]. by rewrite <- solvedBy_elem.
  - intros Hc Hfit.
    destruct (SelectProblemsForContest_returns (dbProblemRepository db)
                arrival r userID count Hc) as (st & _ & Hret).
    + unfold repo_fits. apply Forall_forall. intros diff _. cbn.
      unfold dbFindUnsolvedByUserAndDifficulty.
      destruct (pdb_fault db diff); cbn [fst].
      * unfold fits. by rewrite int_max_eq.
      * unfold fits, len in *.
        rewrite orderByRandom_Permutation.
        pose proof (length_filter
                      (fun p => (p_ID p ∉ solvedBy (pdb_submissions db) userID)
                                /\ p_Difficulty p = diff) (pdb_problems db)).
        lia.
    + rewrite Hret. destruct (finishSelection _ _) as [res err].
      by eexists _, _, _.
Qed.

Lemma X9_selection_avoids_solved_problems_witness :
  exists res r',
    SelectProblemsForContest (dbProblemRepository sampleProblemDB)
      difficulties sampleRand 7%N 5 = Some ((res, None), r') /\
    p_ID <$> res = [2%N; 0%N; 102%N; 101%N; 201%N] /\
    NoDup (p_ID <$> res).
Proof.
  assert (NoDup (p_ID <$> pdb_problems sampleProblemDB)) as Hnd.
  { apply (bool_decide_unpack _). vm_compute. exact I. }
  destruct (X9_selection_avoids_solved_problems sampleProblemDB difficulties
              sampleRand 7%N 5 Hnd) as [Hany _].
  eexists _, _. split; [vm_compute; reflexivity |].
  split; [vm_compute; reflexivity |].
  match goal with
  | |- NoDup (p_ID <$> ?res) =>
      destruct (Hany res None (mkRand (fun k => Z.of_nat k * 7 + 3) 1)
                  ltac:(vm_compute; reflexivity)) as [Hres _]
  end.
  exact Hres.
Defined.

(** * The contest repository and the contest lifecycle *)

(** X10. A contest that is not active is never expired. An active one whose
    duration in nanoseconds fits an [int64] (as every validated duration of
    10 to 300 minutes does) is expired exactly when the clock reads later
    than its start plus its duration; at the very end of its time it is
    still running. *)
Theorem X10_IsExpired_meaning c now :
  (c_Status c <> ContestStatusActive -> IsExpired c now = false) /\
  (c_Status c = ContestStatusActive ->
   GoInt.in_range (c_DurationMinutes c * Minute) ->
   (IsExpired c now = true <->
    c_StartedAt c + c_DurationMinutes c * Minute < now) /\
   IsExpired c (c_StartedAt c + c_DurationMinutes c * Minute) = false) /\
  (10 <= c_DurationMinutes c <= 300 ->
   GoInt.in_range (c_DurationMinutes c * Minute)).
Proof.
  split; [| split].
  - intros Hs. unfold IsExpired.
    destruct (String.eqb_spec (c_Status c) ContestStatusActive); [done |].
    reflexivity.
  - intros Hs Hrange. unfold GoInt.mul in *.
    pose proof (IsExpired_active c now Hs) as Hnow.
    pose proof (IsExpired_active c
                  (c_StartedAt c + c_DurationMinutes c * Minute) Hs) as Hend.
    unfold GoInt.mul in Hnow, Hend. rewrite wrap_id in Hnow, Hend by done.
    rewrite Hnow, Hend. split.
    + apply bool_decide_eq_true.
    + apply bool_decide_eq_false. lia.
  - intros Hm. unfold GoInt.in_range, Minute. int_bounds. lia.
Qed.

Lemma X10_IsExpired_meaning_witness :
  IsExpired sampleContest (30 * Minute) = false /\
  IsExpired sampleContest (30 * Minute + 1) = true.
Proof.
  destruct (X10_IsExpired_meaning sampleContest (30 * Minute + 1))
    as (_ & Hactive & Hvalid).
  destruct (Hactive eq_refl (Hvalid ltac:(cbn; lia))) as [Hiff Hend].
  split; [exact Hend |]. apply Hiff. cbn. lia.
Defined.

Lemma filter_all {A} (P : A -> Prop) `{!forall x, Decision (P x)} (l : list A) :
  Forall P l -> filter P l = l.
Proof.
  induction 1 as [| x l Hx _ IH]; [done |].
  by rewrite filter_cons, decide_True, IH.
Qed.

Lemma filter_none {A} (P : A -> Prop) `{!forall x, Decision (P x)} (l : list A) :
  Forall (fun x => ~ P x) l -> filter P l = [].
Proof.
  induction 1 as [| x l Hx _ IH]; [done |].
  by rewrite filter_cons, decide_False, IH.
Qed.

(** X11. [Create] and [Delete] on the contests table, for a contest with
    no rows attached and calls that do not fail in the database. The key
    of the created contest is the one it carried, or the generated one when
    it carried the zero key. When that key is in neither table the contest
    is inserted, and deleting it again restores both tables. A contest
    carrying a key that is already in the table is refused and nothing is
    changed. Deleting an identifier that no contest carries reports that the
    contest was not found and changes nothing. *)
Theorem X11_Create_then_Delete contest w :
  let key :=
    if (c_ID contest =? 0)%N then w_uuids w (w_made w) else c_ID contest in
  w_faults w (w_calls w) = None ->
  c_ContestProblems contest = [] ->
  (w_faults w (S (w_calls w)) = None ->
   (key ∉ c_ID <$> w_contests w) ->
   (key ∉ cp_ContestID <$> w_contest_problems w) ->
   exists created w1 w2,
     Create contest w = ((created, None), w1) /\
     c_ID created = key /\
     w_contests w1 = w_contests w ++ [row_of created] /\
     Delete (c_ID created) w1 = (None, w2) /\
     w_contests w2 = w_contests w /\
     w_contest_problems w2 = w_contest_problems w) /\
  (c_ID contest <> 0%N -> (c_ID contest ∈ c_ID <$> w_contests w) ->
   exists msg w1,
     Create contest w = ((contest, Some (ErrDatabase msg)), w1) /\
     w_contests w1 = w_contests w /\
     w_contest_problems w1 = w_contest_problems w) /\
  (forall id,
     (id ∉ c_ID <$> w_contests w) ->
     exists w1,
       Delete id w = (Some ErrContestNotFound, w1) /\
       w_contests w1 = w_contests w /\
       w_contest_problems w1 = w_contest_problems w).
Proof.
  intros key Hf _. split; [| split].
  - intros Hf2 Hfresh1 Hfresh2.
    assert (forall (created : Contest) w0,
              c_ID created = key ->
              w_faults w0 (w_calls w0) = None ->
              w_contests w0 = w_contests w ++ [row_of created] ->
              w_contest_problems w0 = w_contest_problems w ->
              exists w2,
                Delete (c_ID created) w0 = (None, w2) /\
                w_contests w2 = w_contests w /\
                w_contest_problems w2 = w_contest_problems w) as Hdelete.
    { intros created w0 Hkey Hf0 Hrows0 Hcps0. unfold Delete, db_call.
      rewrite Hf0.
      cbn [fmap option_fmap option_map w_contests w_contest_problems
           set_tables].
      rewrite Hrows0, Hcps0.
      rewrite bool_decide_eq_true_2.
      2:{ change (map c_ID ?l) with (c_ID <$> l). rewrite fmap_app.
          apply elem_of_app. right. by left. }
      eexists. split; [reflexivity |].
      cbn [w_contests w_contest_problems set_tables]. rewrite Hkey. split.
      - rewrite filter_app, filter_all, filter_none, app_nil_r; [done | |].
        + constructor; [| constructor]. cbn. intros H. by apply H.
        + apply Forall_forall. intros c Hc Heq. apply Hfresh1.
          rewrite <- Heq. by apply list_elem_of_fmap_2.
      - apply filter_all. apply Forall_forall. intros cp Hcp Heq.
        apply Hfresh2. rewrite <- Heq. by apply list_elem_of_fmap_2. }
    unfold Create. unfold db_call at 1. rewrite Hf.
    cbn [fmap option_fmap option_map]. subst key.
    destruct (c_ID contest =? 0)%N eqn:Hzero.
    + unfold gen_random_uuid. cbn [w_uuids w_made].
      match goal with
      | |- context [(?c, None, ?w1)] =>
          destruct (Hdelete c w1 eq_refl Hf2 eq_refl eq_refl)
            as (w2 & Hd & Hrows & Hcps);
          exists c, w1, w2
      end.
      done.
    + rewrite bool_decide_eq_false_2 by exact Hfresh1.
      match goal with
      | |- context [(?c, None, ?w1)] =>
          destruct (Hdelete c w1 eq_refl Hf2 eq_refl eq_refl)
            as (w2 & Hd & Hrows & Hcps);
          exists c, w1, w2
      end.
      done.
  - intros Hkey Hused. unfold Create, db_call. rewrite Hf.
    cbn [fmap option_fmap option_map w_contests].
    apply N.eqb_neq in Hkey. rewrite Hkey.
    rewrite bool_decide_eq_true_2 by exact Hused.
    eexists _, _. split; [reflexivity |]. done.
  - intros id Hid. unfold Delete, db_call. rewrite Hf.
    cbn [fmap option_fmap option_map w_contests].
    rewrite bool_decide_eq_false_2 by done.
    eexists. split; [reflexivity |]. done.
Qed.

Lemma X11_Create_then_Delete_witness :
  (exists created w1 w2,
     Create (mkContest 0%N 7%N 45 0 None ContestStatusActive [])
       (sampleWorld 0) = ((created, None), w1) /\
     c_ID created = 41%N /\
     Delete (c_ID created) w1 = (None, w2) /\
     w_contests w2 = [sampleContest]) /\
  (exists msg w1,
     Create sampleContest (sampleWorld 0)
     = ((sampleContest, Some (ErrDatabase msg)), w1) /\
     w_contests w1 = [sampleContest]).
Proof.
  split.
  - destruct (X11_Create_then_Delete
                (mkContest 0%N 7%N 45 0 None ContestStatusActive [])
                (sampleWorld 0) eq_refl eq_refl) as [Hround _].
    destruct Hround as (created & w1 & w2 & Hc & Hid & _ & Hd & Hrows & _).
    + reflexivity.
    + cbn. rewrite list_elem_of_singleton. discriminate.
    + cbn. apply not_elem_of_nil.
    + exists created, w1, w2. split; [exact Hc |]. split; [exact Hid |].
      split; [exact Hd | exact Hrows].
  - destruct (X11_Create_then_Delete sampleContest (sampleWorld 0)
                eq_refl eq_refl) as (_ & Hdup & _).
    destruct Hdup as (msg & w1 & Hc & Hrows & _).
    + discriminate.
    + cbn. apply list_elem_of_singleton. reflexivity.
    + exists msg, w1. split; [exact Hc | exact Hrows].
Defined.

(** X12. A creation phase that ends with an error returns no contest and
    stores no problem row. It leaves the contests table as it was, with one
    exception: when the insert of the problem rows fails and the deletion
    that should undo the contest fails too, the new active contest of the
    user stays behind. (The generated identifier is assumed unused.) *)
Theorem X12_failed_creation_rolls_back
    problemRepo arrival userID req w out e w' :
  createContest problemRepo arrival userID req w = Some ((out, Some e), w') ->
  next_id_fresh w ->
  out = None /\
  w_contest_problems w' = w_contest_problems w /\
  (w_faults w (S (S (w_calls w))) = None -> w_contests w' = w_contests w) /\
  (w_contests w' = w_contests w \/
   exists row,
     w_contests w' = w_contests w ++ [row] /\
     c_ID row = w_uuids w (w_made w) /\ c_UserID row = userID /\
     c_Status row = ContestStatusActive /\
     is_Some (w_faults w (S (w_calls w))) /\
     is_Some (w_faults w (S (S (w_calls w))))).
Proof.
  intros Hret [Hfresh1 Hfresh2]. unfold createContest in Hret.
  destruct (SelectProblemsForContest _ _ _ _ _)
    as [[[problems [es |]] r] |]; [| | discriminate].
  { injection Hret as <- _ <-. cbn. repeat split; try done. by left. }
  revert Hret. unfold Now, Create, AddProblems, Delete, db_call, gen_random_uuid.
  cbn -[contestProblemsOf].
  destruct (w_faults w (w_calls w)); cbn -[contestProblemsOf].
  { intros [= <- _ <-]. cbn. repeat split; try done. by left. }
  destruct (w_faults w (S (w_calls w))) as [m2 |]; cbn -[contestProblemsOf];
    [| discriminate].
  destruct (w_faults w (S (S (w_calls w)))) as [m3 |];
    cbn -[contestProblemsOf].
  { intros [= <- _ <-]. cbn. repeat split; try done.
    right. eexists. split; [reflexivity |]. cbn. repeat split; by eexists. }
  rewrite bool_decide_eq_true_2.
  2:{ change (map c_ID ?l) with (c_ID <$> l). rewrite fmap_app.
      apply elem_of_app. right. by left. }
  intros [= <- _ <-]. cbn [w_contests w_contest_problems set_tables].
  assert (filter (fun c => c_ID c <> w_uuids w (w_made w))
            (w_contests w ++
             [row_of (mkContest (w_uuids w (w_made w)) userID
                        (DurationMinutes req) (w_clock w (w_reads w)) None
                        ContestStatusActive [])])
          = w_contests w) as ->.
  { rewrite filter_app, filter_all, filter_none, app_nil_r; [done | |].
    - constructor; [| constructor]. cbn. by intros H.
    - apply Forall_forall. intros c Hc Heq. apply Hfresh1.
      rewrite <- Heq. by apply list_elem_of_fmap_2. }
  rewrite filter_all.
  2:{ apply Forall_forall. intros cp Hcp Heq.
      apply Hfresh2. rewrite <- Heq. by apply list_elem_of_fmap_2. }
  repeat split; try done. by left.
Qed.

Lemma X12_failed_creation_rolls_back_witness :
  exists w',
    createContest (sampleRepo 0 0 0) difficulties 7%N sampleRequest
      (sampleWorld 0) = Some ((None, Some ErrNotEnoughProblems), w') /\
    w_contests w' = [sampleContest] /\
    w_contest_problems w' = [].
Proof.
  assert ((fun x => fst x)
            <$> createContest (sampleRepo 0 0 0) difficulties 7%N
                  sampleRequest (sampleWorld 0)
          = Some (None, Some ErrNotEnoughProblems)) as Hrun
    by (vm_compute; reflexivity).
  pose proof (X12_failed_creation_rolls_back (sampleRepo 0 0 0) difficulties
                7%N sampleRequest (sampleWorld 0)) as Hthm.
  destruct (createContest (sampleRepo 0 0 0) difficulties 7%N sampleRequest
              (sampleWorld 0)) as [[[out err] w'] |]; [| discriminate Hrun].
  injection Hrun as -> ->.
  destruct (Hthm None ErrNotEnoughProblems w' eq_refl)
    as (_ & Hcps & Hrows & _).
  - split.
    + cbn. rewrite list_elem_of_singleton. discriminate.
    + cbn. apply not_elem_of_nil.
  - exists w'. split; [reflexivity |]. split; [exact (Hrows eq_refl) | exact Hcps].
Defined.

Section SortedInput.
Context {A : Type} (key : A -> Z).

Lemma insert_by_last x l :
  Forall (fun y => key y <= key x) l ->
  insert_by (lessBy key) x l = l ++ [x].
Proof.
  induction 1 as [| y l Hy _ IH]; [done |]. cbn. unfold lessBy at 1.
  destruct (Z.ltb_spec (key x) (key y)); [lia |]. by rewrite IH.
Qed.

(** Sorting a slice that is in order already leaves it as it is. *)
Lemma sort_Slice_sorted l :
  (forall i j a b, (i < j)%nat -> l !! i = Some a -> l !! j = Some b ->
                   key a <= key b) ->
  sort_Slice (lessBy key) l = l.
Proof.
  unfold sort_Slice. induction l as [| x l IH] using rev_ind; [done |].
  intros Hord. rewrite foldl_app. cbn [foldl]. rewrite IH.
  - apply insert_by_last. apply Forall_forall. intros y Hy.
    apply list_elem_of_lookup in Hy as [i Hi].
    apply (Hord i (length l) y x).
    + by eapply lookup_lt_Some.
    + by rewrite lookup_app_l by (by eapply lookup_lt_Some).
    + by rewrite list_lookup_middle.
  - intros i j a b Hij Hi Hj. apply (Hord i j a b Hij).
    + by rewrite lookup_app_l by (by eapply lookup_lt_Some).
    + by rewrite lookup_app_l by (by eapply lookup_lt_Some).
Qed.
End SortedInput.

Lemma contestProblemsOf_sorted contestID problems :
  fits problems ->
  sort_Slice (fun a b => cp_Order a <? cp_Order b)
    (contestProblemsOf contestID problems)
  = contestProblemsOf contestID problems.
Proof.
  intros Hfit. apply (sort_Slice_sorted cp_Order).
  intros i j a b Hij Hi Hj.
  destruct (problems !! i) as [p |] eqn:Pi.
  2:{ apply lookup_ge_None in Pi. apply lookup_lt_Some in Hi.
      rewrite contestProblemsOf_length in Hi. lia. }
  destruct (problems !! j) as [q |] eqn:Pj.
  2:{ apply lookup_ge_None in Pj. apply lookup_lt_Some in Hj.
      rewrite contestProblemsOf_length in Hj. lia. }
  rewrite (contestProblemsOf_lookup _ _ _ _ Hfit Pi) in Hi.
  rewrite (contestProblemsOf_lookup _ _ _ _ Hfit Pj) in Hj.
  injection Hi as <-. injection Hj as <-. cbn. lia.
Qed.

Lemma contestProblemsOf_contest contestID problems :
  Forall (fun cp => cp_ContestID cp = contestID)
         (contestProblemsOf contestID problems).
Proof.
  apply Forall_forall. intros cp Hcp. unfold contestProblemsOf in Hcp.
  apply elem_of_lookup_imap in Hcp as (i & p & -> & _). reflexivity.
Qed.

(** The world a successful creation phase leaves. *)
Lemma createContest_success_world problemRepo arrival userID req w contest w' :
  createContest problemRepo arrival userID req w
  = Some ((Some contest, None), w') ->
  exists problems r',
    SelectProblemsForContest problemRepo arrival (w_rng w) userID
      (ProblemCount req) = Some ((problems, None), r') /\
    contest = mkContest (w_uuids w (w_made w)) userID (DurationMinutes req)
                (w_clock w (w_reads w)) None ContestStatusActive
                (contestProblemsOf (w_uuids w (w_made w)) problems) /\
    w_contests w' = w_contests w ++ [row_of contest] /\
    w_contest_problems w'
    = w_contest_problems w ++ c_ContestProblems contest /\
    w_faults w' = w_faults w /\ w_calls w' = S (S (w_calls w)) /\
    w_clock w' = w_clock w /\ w_reads w' = S (w_reads w).
Proof.
  unfold createContest.
  destruct (SelectProblemsForContest _ _ _ _ _)
    as [[[problems [es |]] r] |]; [discriminate | | discriminate].
  unfold Now, Create, AddProblems, db_call, gen_random_uuid.
  cbn -[contestProblemsOf].
  destruct (w_faults w (w_calls w)); cbn -[contestProblemsOf];
    [discriminate |].
  destruct (w_faults w (S (w_calls w))); cbn -[contestProblemsOf].
  { case_match; discriminate. }
  rewrite contestProblemsOf_stamped.
  intros [= <- <-]. exists problems, r. cbn -[contestProblemsOf]. done.
Qed.

(** X13. A contest that was just created is read back as it was returned:
    [GetContestByID] on its identifier gives the same contest, with the same
    problem rows in the same order, and changes no table, as long as the
    read does not fail in the database and the contest has not run out of
    time. (The generated identifier is assumed unused.) *)
Theorem X13_created_contest_reads_back
    problemRepo arrival userID req w contest w' :
  valid_count (ProblemCount req) -> repo_fits problemRepo userID ->
  next_id_fresh w ->
  createContest problemRepo arrival userID req w
  = Some ((Some contest, None), w') ->
  w_faults w' (w_calls w') = None ->
  IsExpired contest (w_clock w' (w_reads w')) = false ->
  exists w'',
    GetContestByID (c_ID contest) w' = Some ((Some contest, None), w'') /\
    w_contests w'' = w_contests w' /\
    w_contest_problems w'' = w_contest_problems w'.
Proof.
  intros Hc Hfit [Hfresh1 Hfresh2] Hret Hf Hexp.
  apply createContest_success_world in Hret
    as (problems & r' & Hsel & -> & Hrows & Hcps & _).
  pose proof (SelectProblemsForContest_fits _ _ _ _ _ _ _ _ Hc Hfit Hsel)
    as Hlen.
  cbn [c_ID c_ContestProblems] in *.
  unfold GetContestByID, FindByIDWithProblems, db_call. rewrite Hf.
  cbn [fmap option_fmap option_map w_contests].
  rewrite Hrows, filter_app, filter_none, filter_all, app_nil_l.
  2:{ constructor; [reflexivity | constructor]. }
  2:{ apply Forall_forall. intros c Hin Heq. apply Hfresh1.
      rewrite <- Heq. by apply list_elem_of_fmap_2. }
  cbn [first_by_id foldl]. unfold preloadProblems.
  cbn [w_contest_problems c_ID row_of c_UserID c_DurationMinutes c_StartedAt
       c_EndedAt c_Status].
  rewrite Hcps, filter_app, filter_none, filter_all, app_nil_l.
  2:{ apply contestProblemsOf_contest. }
  2:{ apply Forall_forall. intros cp Hin Heq. apply Hfresh2.
      rewrite <- Heq. by apply list_elem_of_fmap_2. }
  rewrite contestProblemsOf_sorted by exact Hlen.
  unfold completeIfExpired, Now. cbn [w_clock w_reads].
  rewrite Hexp. eexists. split; [reflexivity |]. cbn. done.
Qed.

Lemma X13_created_contest_reads_back_witness :
  exists contest w' w'',
    createContest (sampleRepo 3 3 3) difficulties 7%N sampleRequest
      (sampleWorld 0) = Some ((Some contest, None), w') /\
    GetContestByID (c_ID contest) w' = Some ((Some contest, None), w'') /\
    cp_Order <$> c_ContestProblems contest = [1; 2; 3; 4; 5].
Proof.
  assert (Hc : valid_count (ProblemCount sampleRequest))
    by (vm_compute; split; discriminate).
  assert (Hfit : repo_fits (sampleRepo 3 3 3) 7%N).
  { unfold repo_fits, difficulties.
    repeat (apply Forall_cons; split; [vm_compute; discriminate |]).
    constructor. }
  assert (Hfresh : next_id_fresh (sampleWorld 0)).
  { split.
    - cbn. rewrite list_elem_of_singleton. discriminate.
    - cbn. apply not_elem_of_nil. }
  pose proof (X13_created_contest_reads_back (sampleRepo 3 3 3) difficulties
                7%N sampleRequest (sampleWorld 0)) as Hthm.
  pose proof (createContest_success_world (sampleRepo 3 3 3) difficulties
                7%N sampleRequest (sampleWorld 0)) as Hworld.
  assert ((fun x => (bool_decide (is_Some (fst (fst x))), snd (fst x)))
            <$> createContest (sampleRepo 3 3 3) difficulties 7%N
                  sampleRequest (sampleWorld 0)
          = Some (true, None)) as Hok by (vm_compute; reflexivity).
  destruct (createContest (sampleRepo 3 3 3) difficulties 7%N sampleRequest
              (sampleWorld 0))
    as [[[[contest |] err] w'] |]; try discriminate Hok.
  injection Hok as ->.
  destruct (Hworld contest w' eq_refl)
    as (problems & r' & Hsel & Hcontest & _ & _ & Hfaults & Hcalls & Hclock
        & Hreads).
  destruct (Hthm contest w' Hc Hfit Hfresh eq_refl) as (w'' & Hget & _).
  - by rewrite Hfaults.
  - rewrite Hclock, Hreads, Hcontest. vm_compute. reflexivity.
  - exists contest, w', w''. split; [reflexivity |]. split; [exact Hget |].
    rewrite Hcontest. cbn [c_ContestProblems].
    vm_compute in Hsel. injection Hsel as <- _. vm_compute. reflexivity.
Defined.

Lemma first_by_id_some rows : forall best,
  foldl (fun best c =>
           match best with
           | None => Some c
           | Some b => if (c_ID c <? c_ID b)%N then Some c else Some b
           end) best rows = None ->
  best = None /\ rows = [].
Proof.
  induction rows as [| x rows IH]; intros best H; [done |].
  cbn in H. apply IH in H as [H _].
  destruct best as [b |]; [destruct (c_ID x <? c_ID b)%N |]; discriminate.
Qed.

Lemma found_has_id id rows c :
  first_by_id (filter (fun c => c_ID c = id) rows) = Some c ->
  c ∈ rows /\ c_ID c = id.
Proof.
  unfold first_by_id. intros H.
  apply first_by_id_from in H as [H | H]; [discriminate |].
  by apply list_elem_of_filter in H as [? ?].
Qed.

(** The outcome of ending a contest, case by case. *)
Lemma endContest_outcome status userID contestID w :
  let found :=
    first_by_id (filter (fun c => c_ID c = contestID) (w_contests w)) in
  w_faults w (w_calls w) = None ->
  exists err w',
    endContest status userID contestID w = Some (err, w') /\
    w_contest_problems w' = w_contest_problems w /\
    (found = None ->
     err = Some (Err ErrContestNotFound) /\ w_contests w' = w_contests w) /\
    (forall c, found = Some c ->
       (c_UserID c <> userID ->
        err = Some ErrForbidden /\ w_contests w' = w_contests w) /\
       (c_UserID c = userID -> c_Status c <> ContestStatusActive ->
        err = Some ErrContestNotActive /\ w_contests w' = w_contests w) /\
       (c_UserID c = userID -> c_Status c = ContestStatusActive ->
        (forall msg, w_faults w (S (w_calls w)) = Some msg ->
           err = Some (Err (ErrDatabase msg)) /\
           w_contests w' = w_contests w) /\
        (w_faults w (S (w_calls w)) = None ->
         err = None /\
         w_contests w'
         = map (fun row =>
                  if decide (c_ID row = contestID)
                  then mkContest contestID userID (c_DurationMinutes c)
                         (c_StartedAt c) (Some (w_clock w (w_reads w)))
                         status []
                  else row)
               (w_contests w)))).
Proof.
  intros found Hf. unfold endContest, FindByID, db_call. rewrite Hf.
  cbn [fmap option_fmap option_map w_contests]. fold found.
  destruct found as [c |] eqn:Hfound.
  2:{ eexists _, _. split; [reflexivity |]. cbn. repeat split; try done. }
  apply found_has_id in Hfound as [Hin Hid].
  cbn [row_of c_UserID c_Status c_ID c_DurationMinutes c_StartedAt c_EndedAt
       c_ContestProblems].
  destruct (decide (c_UserID c = userID)) as [Hu | Hu].
  2:{ rewrite bool_decide_eq_false_2 by done. cbn [negb].
      eexists _, _. split; [reflexivity |]. cbn.
      split; [done |]. split; [done |]. intros c' [= <-].
      split; [done |]. split; intros; done. }
  rewrite bool_decide_eq_true_2 by done. cbn [negb].
  destruct (String.eqb_spec (c_Status c) ContestStatusActive) as [Hs | Hs];
    cbn [negb].
  2:{ eexists _, _. split; [reflexivity |]. cbn.
      split; [done |]. split; [done |]. intros c' [= <-].
      split; [done |]. split; intros; done. }
  unfold Now, Update, db_call.
  cbn [w_faults w_calls w_clock w_reads w_contests w_contest_problems c_ID
       set_tables].
  destruct (w_faults w (S (w_calls w))) as [msg |] eqn:Hf2;
    cbn [fmap option_fmap option_map];
    (eexists _, _; split; [reflexivity |]); cbn;
    (split; [done |]); (split; [done |]); intros c' [= <-];
    (split; [done |]); (split; [done |]); intros _ _; split.
  - intros msg' [= <-]. done.
  - done.
  - done.
  - intros _. split; [done |]. rewrite Hid, Hu. done.
Qed.

(** X14. Ending a contest ([CompleteContest], [AbandonContest]): a contest
    that does not exist is reported as not found; one that belongs to
    another user is refused as forbidden; one that is not active is refused
    as not active; in these cases and when the write fails nothing is
    changed. Otherwise the row of the contest, and no other, gets the new
    status and the reading of the clock as end time. The problem rows are
    never touched. *)
Theorem X14_ending_a_contest status userID contestID w :
  let found :=
    first_by_id (filter (fun c => c_ID c = contestID) (w_contests w)) in
  w_faults w (w_calls w) = None ->
  exists err w',
    endContest status userID contestID w = Some (err, w') /\
    w_contest_problems w' = w_contest_problems w /\
    (found = None ->
     err = Some (Err ErrContestNotFound) /\ w_contests w' = w_contests w) /\
    (forall c, found = Some c ->
       (c_UserID c <> userID ->
        err = Some ErrForbidden /\ w_contests w' = w_contests w) /\
       (c_UserID c = userID -> c_Status c <> ContestStatusActive ->
        err = Some ErrContestNotActive /\ w_contests w' = w_contests w) /\
       (c_UserID c = userID -> c_Status c = ContestStatusActive ->
        (forall msg, w_faults w (S (w_calls w)) = Some msg ->
           err = Some (Err (ErrDatabase msg)) /\
           w_contests w' = w_contests w) /\
        (w_faults w (S (w_calls w)) = None ->
         err = None /\
         w_contests w'
         = map (fun row =>
                  if decide (c_ID row = contestID)
                  then mkContest contestID userID (c_DurationMinutes c)
                         (c_StartedAt c) (Some (w_clock w (w_reads w)))
                         status []
                  else row)
               (w_contests w)))).
Proof. apply endContest_outcome. Qed.

Lemma X14_ending_a_contest_witness :
  (exists w',
     CompleteContest 7%N 40%N (sampleWorld 0) = Some (None, w') /\
     w_contests w'
     = [mkContest 40%N 7%N 30 0 (Some 0) ContestStatusCompleted []]) /\
  (exists w',
     AbandonContest 8%N 40%N (sampleWorld 0) = Some (Some ErrForbidden, w') /\
     w_contests w' = [sampleContest]).
Proof.
  split.
  - destruct (X14_ending_a_contest ContestStatusCompleted 7%N 40%N
                (sampleWorld 0) eq_refl)
      as (err & w' & Hret & _ & _ & Hfound).
    destruct (Hfound sampleContest eq_refl) as (_ & _ & Hown).
    destruct (Hown eq_refl eq_refl) as [_ Hok].
    destruct (Hok eq_refl) as [-> Hrows].
    exists w'. split; [exact Hret | exact Hrows].
  - destruct (X14_ending_a_contest ContestStatusAbandoned 8%N 40%N
                (sampleWorld 0) eq_refl)
      as (err & w' & Hret & _ & _ & Hfound).
    destruct (Hfound sampleContest eq_refl) as (Hother & _).
    destruct Hother as [-> Hrows]; [discriminate |].
    exists w'. split; [exact Hret | exact Hrows].
Defined.

(** What a successful ending has done. *)
Lemma endContest_success status userID contestID w w' :
  endContest status userID contestID w = Some (None, w') ->
  exists c,
    first_by_id (filter (fun c => c_ID c = contestID) (w_contests w)) = Some c /\
    c_UserID c = userID /\ c_Status c = ContestStatusActive /\
    w_contests w'
    = map (fun row =>
             if decide (c_ID row = contestID)
             then mkContest contestID userID (c_DurationMinutes c)
                    (c_StartedAt c) (Some (w_clock w (w_reads w))) status []
             else row)
          (w_contests w) /\
    w_contest_problems w' = w_contest_problems w /\
    w_faults w' = w_faults w /\ w_calls w' = S (S (w_calls w)) /\
    w_clock w' = w_clock w /\ w_reads w' = S (w_reads w).
Proof.
  unfold endContest, FindByID, db_call.
  destruct (w_faults w (w_calls w)); cbn [fmap option_fmap option_map];
    [discriminate |].
  cbn [w_contests].
  destruct (first_by_id _) as [c |] eqn:Hfound; [| discriminate].
  apply found_has_id in Hfound as [Hin Hid].
  cbn [row_of c_UserID c_Status c_ID c_DurationMinutes c_StartedAt c_EndedAt
       c_ContestProblems].
  destruct (decide (c_UserID c = userID)) as [Hu | Hu].
  2:{ rewrite bool_decide_eq_false_2 by done. discriminate. }
  rewrite bool_decide_eq_true_2 by done. cbn [negb].
  destruct (String.eqb_spec (c_Status c) ContestStatusActive) as [Hs | Hs];
    cbn [negb]; [| discriminate].
  unfold Now, Update, db_call.
  cbn [w_faults w_calls w_clock w_reads w_contests w_contest_problems c_ID
       set_tables].
  destruct (w_faults w (S (w_calls w))); cbn [fmap option_fmap option_map];
    [discriminate |].
  intros [= <-]. exists c. cbn. rewrite Hid, Hu. done.
Qed.

Lemma filter_replaced id (R : Contest) rows :
  c_ID R = id ->
  filter (fun c => c_ID c = id)
    (map (fun row => if decide (c_ID row = id) then R else row) rows)
  = (fun _ => R) <$> filter (fun c => c_ID c = id) rows.
Proof.
  intros HR. induction rows as [| x rows IH]; [done |].
  cbn [map]. rewrite !filter_cons. destruct (decide (c_ID x = id)) as [Hx | Hx].
  - rewrite decide_True by done. by rewrite fmap_cons, IH.
  - by rewrite decide_False.
Qed.

Lemma first_by_id_constant (R : Contest) (l : list Contest) : forall best,
  (best = None \/ best = Some R) -> (best = Some R \/ l <> []) ->
  foldl (fun best c =>
           match best with
           | None => Some c
           | Some b => if (c_ID c <? c_ID b)%N then Some c else Some b
           end) best ((fun _ => R) <$> l) = Some R.
Proof.
  induction l as [| x l IH]; intros best Hb Hne.
  - destruct Hne as [-> | ?]; done.
  - rewrite fmap_cons. cbn [foldl]. apply IH; [right | left];
      destruct Hb as [-> | ->]; try done; by destruct (c_ID R <? c_ID R)%N.
Qed.

Lemma found_after_update id (R c : Contest) rows :
  c_ID R = id ->
  first_by_id (filter (fun c => c_ID c = id) rows) = Some c ->
  first_by_id
    (filter (fun c => c_ID c = id)
       (map (fun row => if decide (c_ID row = id) then R else row) rows))
  = Some R.
Proof.
  intros HR Hfound. rewrite filter_replaced by done.
  apply first_by_id_constant; [by left |]. right. intros Hnil.
  by rewrite Hnil in Hfound.
Qed.

(** X15. Completed and abandoned are final: once [CompleteContest] or
    [AbandonContest] has succeeded on a contest, a later attempt to complete
    or abandon it (by its owner, with the lookup succeeding) is refused as
    not active and changes nothing. *)
Theorem X15_ended_contests_stay_ended userID contestID w w' :
  CompleteContest userID contestID w = Some (None, w') \/
  AbandonContest userID contestID w = Some (None, w') ->
  w_faults w' (w_calls w') = None ->
  exists w1 w2,
    CompleteContest userID contestID w'
    = Some (Some ErrContestNotActive, w1) /\
    AbandonContest userID contestID w'
    = Some (Some ErrContestNotActive, w2) /\
    w_contests w1 = w_contests w' /\ w_contests w2 = w_contests w' /\
    w_contest_problems w1 = w_contest_problems w' /\
    w_contest_problems w2 = w_contest_problems w'.
Proof.
  intros Hended Hf.
  assert (exists R,
            first_by_id (filter (fun c => c_ID c = contestID) (w_contests w'))
            = Some R /\
            c_UserID R = userID /\ c_Status R <> ContestStatusActive)
    as (R & Hfound & Hu & Hs).
  { destruct Hended as [Hended | Hended];
      apply endContest_success in Hended
        as (c & Hfound & _ & _ & -> & _);
      eexists; (split; [by eapply found_after_update |]);
      cbn; split; done. }
  destruct (endContest_outcome ContestStatusCompleted userID contestID w' Hf)
    as (e1 & w1 & H1 & C1 & _ & F1).
  destruct (endContest_outcome ContestStatusAbandoned userID contestID w' Hf)
    as (e2 & w2 & H2 & C2 & _ & F2).
  destruct (F1 R Hfound) as (_ & N1 & _). destruct (N1 Hu Hs) as [-> R1].
  destruct (F2 R Hfound) as (_ & N2 & _). destruct (N2 Hu Hs) as [-> R2].
  exists w1, w2. done.
Qed.

Lemma X15_ended_contests_stay_ended_witness :
  exists w' w1,
    CompleteContest 7%N 40%N (sampleWorld 0) = Some (None, w') /\
    AbandonContest 7%N 40%N w' = Some (Some ErrContestNotActive, w1) /\
    w_contests w1 = w_contests w'.
Proof.
  pose proof (X15_ended_contests_stay_ended 7%N 40%N (sampleWorld 0)) as Hthm.
  pose proof (endContest_success ContestStatusCompleted 7%N 40%N
                (sampleWorld 0)) as Hworld.
  change (endContest ContestStatusCompleted) with CompleteContest in Hworld.
  assert (fst <$> CompleteContest 7%N 40%N (sampleWorld 0) = Some None)
    as Hrun by (vm_compute; reflexivity).
  destruct (CompleteContest 7%N 40%N (sampleWorld 0)) as [[err w'] |];
    [| discriminate Hrun].
  injection Hrun as ->.
  destruct (Hworld w' eq_refl) as (c & _ & _ & _ & _ & _ & Hfaults & Hcalls & _).
  destruct (Hthm w' (or_introl eq_refl)) as (w1 & w2 & _ & Hab & _ & Hrows & _).
  - by rewrite Hfaults.
  - exists w', w2. split; [reflexivity |]. split; [exact Hab | exact Hrows].
Defined.

(** X16. An ended contest no longer stands in the way: after
    [CompleteContest] or [AbandonContest] has succeeded on the only active
    contest of a user, the check at the start of [CreateContest] (its
    lookup succeeding) finds no active contest, so the request goes on to
    the selection and never ends with the active-contest error. *)
Theorem X16_ended_contest_unblocks_creation
    problemRepo arrival userID contestID req w w' :
  CompleteContest userID contestID w = Some (None, w') \/
  AbandonContest userID contestID w = Some (None, w') ->
  Forall (fun row =>
            c_UserID row = userID -> c_Status row = ContestStatusActive ->
            c_ID row = contestID)
         (w_contests w) ->
  w_faults w' (w_calls w') = None ->
  activeRow userID w' = None /\
  CreateContest problemRepo arrival userID req w'
  = createContest problemRepo arrival userID req (snd (db_call w')) /\
  forall out w'',
    CreateContest problemRepo arrival userID req w'
    <> Some ((out, Some ErrActiveContestExists), w'').
Proof.
  intros Hended Honly Hf.
  assert (activeRow userID w' = None) as Hrow.
  { assert (exists R,
              c_Status R <> ContestStatusActive /\
              w_contests w'
              = map (fun row => if decide (c_ID row = contestID) then R else row)
                    (w_contests w)) as (R & HR & Hrows).
    { destruct Hended as [Hended | Hended];
        apply endContest_success in Hended as (c & _ & _ & _ & -> & _);
        eexists; (split; [| reflexivity]); cbn; done. }
    unfold activeRow. rewrite Hrows, filter_none; [done |].
    rewrite Forall_forall in Honly. apply Forall_forall.
    intros row Hrow [Hu Hs].
    change (map ?f ?l) with (f <$> l) in Hrow.
    apply list_elem_of_fmap in Hrow as (row0 & -> & Hin).
    destruct (decide (c_ID row0 = contestID)) as [Hid | Hid]; [done |].
    by apply Hid, Honly. }
  split; [exact Hrow |].
  assert (CreateContest problemRepo arrival userID req w'
          = createContest problemRepo arrival userID req (snd (db_call w')))
    as Hgo.
  { unfold CreateContest.
    by rewrite (checkActiveContest_free userID w' Hf Hrow). }
  split; [exact Hgo |]. intros out w'' Hret. rewrite Hgo in Hret.
  apply createContest_errors in Hret as [? | [? ?]]; discriminate.
Qed.

Lemma X16_ended_contest_unblocks_creation_witness :
  exists w',
    AbandonContest 7%N 40%N (sampleWorld 0) = Some (None, w') /\
    activeRow 7%N w' = None /\
    fst (checkActiveContest 7%N w') = None.
Proof.
  pose proof (X16_ended_contest_unblocks_creation (sampleRepo 3 3 3)
                difficulties 7%N 40%N sampleRequest (sampleWorld 0)) as Hthm.
  pose proof (endContest_success ContestStatusAbandoned 7%N 40%N
                (sampleWorld 0)) as Hworld.
  change (endContest ContestStatusAbandoned) with AbandonContest in Hworld.
  assert (fst <$> AbandonContest 7%N 40%N (sampleWorld 0) = Some None)
    as Hrun by (vm_compute; reflexivity).
  destruct (AbandonContest 7%N 40%N (sampleWorld 0)) as [[err w'] |];
    [| discriminate Hrun].
  injection Hrun as ->.
  destruct (Hworld w' eq_refl) as (c & _ & _ & _ & _ & _ & Hfaults & Hcalls & _).
  assert (w_faults w' (w_calls w') = None) as Hf by (by rewrite Hfaults).
  destruct (Hthm w' (or_intror eq_refl)) as (Hrow & _ & _).
  - repeat constructor.
  - exact Hf.
  - exists w'. split; [reflexivity |]. split; [exact Hrow |].
    by rewrite (checkActiveContest_free 7%N w' Hf Hrow).
Defined.

Lemma first_submission_some rows : forall best,
  foldl (fun best s =>
           match best with
           | None => Some s
           | Some b => if (sub_ID s <? sub_ID b)%N then Some s else Some b
           end) best rows = None ->
  best = None /\ rows = [].
Proof.
  induction rows as [| x rows IH]; intros best H; [done |].
  cbn in H. apply IH in H as [H _].
  destruct best as [b |]; [destruct (sub_ID x <? sub_ID b)%N |]; discriminate.
Qed.

(** X17. What marking a problem does to the stored data, whenever it
    returns. It never changes the contests table. It appends at most one
    submission, which is of this user, problem and contest; it appends
    none when it returns an error, when the problem is being unmarked, or
    when the user already has a submission for the problem and the lookup
    of it succeeds: the solve history only grows and holds a problem once.
    On an error the problem rows are unchanged; on success exactly the rows
    of this contest and problem carry the new completion flag. *)
Theorem X17_MarkProblemComplete_effects
    userID contestID problemID isCompleted st err st' :
  MarkProblemComplete userID contestID problemID isCompleted st
  = Some (err, st') ->
  let w := st_world st in
  let w' := st_world st' in
  w_contests w' = w_contests w /\
  (st_submissions st' = st_submissions st \/
   exists s,
     st_submissions st' = st_submissions st ++ [s] /\
     sub_UserID s = userID /\ sub_ProblemID s = problemID /\
     sub_ContestID s = Some contestID) /\
  (err <> None ->
   st_submissions st' = st_submissions st /\
   w_contest_problems w' = w_contest_problems w) /\
  (isCompleted = false -> st_submissions st' = st_submissions st) /\
  (err = None ->
   w_contest_problems w'
   = map (fun cp =>
            if decide (cp_ContestID cp = contestID
                       /\ cp_ProblemID cp = problemID)
            then mkContestProblem (cp_ContestID cp) (cp_ProblemID cp)
                   (cp_Order cp) isCompleted (cp_Problem cp)
            else cp)
         (w_contest_problems w)) /\
  ((exists s, s ∈ st_submissions st /\ sub_UserID s = userID
              /\ sub_ProblemID s = problemID) ->
   w_faults w (S (S (w_calls w))) = None ->
   st_submissions st' = st_submissions st).
Proof.
  destruct st as [w submissions]. cbn [st_world st_submissions].
  unfold MarkProblemComplete, FindByID, db_call.
  cbn [st_world st_submissions w_faults w_calls w_contests].
  destruct (w_faults w (w_calls w)); cbn [fmap option_fmap option_map].
  { intros Hret; cbn in Hret. injection Hret as <- <-. cbn. repeat split; try done. by left. }
  destruct (first_by_id _) as [c |]; cbn [row_of c_UserID c_Status].
  2:{ intros Hret; cbn in Hret; injection Hret as <- <-. cbn. repeat split; try done. by left. }
  destruct (negb (bool_decide (c_UserID c = userID))).
  { intros Hret; cbn in Hret; injection Hret as <- <-. cbn. repeat split; try done. by left. }
  destruct (negb (String.eqb (c_Status c) ContestStatusActive)).
  { intros Hret; cbn in Hret; injection Hret as <- <-. cbn. repeat split; try done. by left. }
  unfold Now. cbn [w_clock w_reads].
  destruct (IsExpired _ _).
  { intros Hret; cbn in Hret; injection Hret as <- <-. cbn. repeat split; try done. by left. }
  unfold UpdateProblemStatus, db_call.
  cbn [w_faults w_calls w_contests w_contest_problems].
  destruct (w_faults w (S (w_calls w))); cbn [fmap option_fmap option_map].
  { intros Hret; cbn in Hret; injection Hret as <- <-. cbn. repeat split; try done. by left. }
  destruct (_ =? 0).
  { intros Hret; cbn in Hret; injection Hret as <- <-. cbn. repeat split; try done. by left. }
  cbn [set_tables w_contests w_contest_problems w_faults w_calls w_clock
       w_reads w_uuids w_made w_rng].
  destruct isCompleted.
  2:{ intros Hret; cbn in Hret; injection Hret as <- <-. cbn. repeat split; try done. by left. }
  unfold FindByUserAndProblem, Now, CreateSubmission, db_call,
    gen_random_uuid.
  cbn -[first_submission filter].
  destruct (w_faults w (S (S (w_calls w)))) as [m3 |] eqn:Hf3;
    cbn -[first_submission filter].
  - (* the lookup fails: a submission is inserted all the same *)
    destruct (w_faults w (S (S (S (w_calls w)))));
      cbn -[first_submission filter]; intros Hret;
      injection Hret as <- <-; cbn;
      repeat split; try done; try (by left).
    right. eexists. split; [reflexivity |]. done.
  - destruct (first_submission _) as [existing |] eqn:Hex;
      cbn -[first_submission filter].
    { intros Hret; injection Hret as <- <-. cbn.
      repeat split; try done. by left. }
    assert ((exists s, s ∈ submissions /\ sub_UserID s = userID
                       /\ sub_ProblemID s = problemID) -> False) as Hnone.
    { intros (s & Hin & Hu & Hp). unfold first_submission in Hex.
      apply first_submission_some in Hex as [_ Hnil].
      assert (s ∈ filter (fun s => sub_UserID s = userID
                                   /\ sub_ProblemID s = problemID)
                         submissions) as Hs
        by (by apply list_elem_of_filter).
      rewrite Hnil in Hs. by inversion Hs. }
    destruct (w_faults w (S (S (S (w_calls w)))));
      cbn -[first_submission filter]; intros Hret;
      injection Hret as <- <-; cbn;
      repeat split; try done; try (by left);
      try (by intros H; destruct Hnone).
    right. eexists. split; [reflexivity |]. done.
Qed.

Lemma X17_MarkProblemComplete_effects_witness :
  exists st1,
    MarkProblemComplete 7%N 40%N 100%N true sampleStore = Some (None, st1) /\
    st_submissions st1 = [mkSubmission 900%N 7%N 100%N (Some 40%N) 6] /\
    w_contests (st_world st1) = [sampleContest] /\
    cp_IsCompleted <$> w_contest_problems (st_world st1) = [true].
Proof.
  pose proof (X17_MarkProblemComplete_effects 7%N 40%N 100%N true sampleStore)
    as Hthm.
  assert ((fun x => (fst x, st_submissions (snd x)))
            <$> MarkProblemComplete 7%N 40%N 100%N true sampleStore
          = Some (None, [mkSubmission 900%N 7%N 100%N (Some 40%N) 6]))
    as Hrun by (vm_compute; reflexivity).
  destruct (MarkProblemComplete 7%N 40%N 100%N true sampleStore)
    as [[err st1] |]; [| discriminate Hrun].
  injection Hrun as -> Hsubs.
  destruct (Hthm None st1 eq_refl) as (Hcontests & _ & _ & _ & Hrows & _).
  exists st1. split; [reflexivity |]. split; [exact Hsubs |].
  split; [exact Hcontests |]. rewrite (Hrows eq_refl). reflexivity.
Defined.

(** X18. The checks of [MarkProblemComplete], in their order, with the
    lookup of the contest succeeding: a contest of another user is refused
    as forbidden; the owner's contest that is not active, as not active; an
    active one whose time is up, as expired; and a running one that does not
    hold the problem, as problem not in contest (the update matching no
    row). A running contest of the owner that holds the problem is marked
    without error. *)
Theorem X18_MarkProblemComplete_checks
    userID contestID problemID isCompleted st c :
  let w := st_world st in
  w_faults w (w_calls w) = None ->
  first_by_id (filter (fun c => c_ID c = contestID) (w_contests w)) = Some c ->
  exists err st',
    MarkProblemComplete userID contestID problemID isCompleted st
    = Some (err, st') /\
    (c_UserID c <> userID -> err = Some ErrForbidden) /\
    (c_UserID c = userID -> c_Status c <> ContestStatusActive ->
     err = Some ErrContestNotActive) /\
    (c_UserID c = userID -> c_Status c = ContestStatusActive ->
     (IsExpired c (w_clock w (w_reads w)) = true ->
      err = Some ErrContestExpired) /\
     (IsExpired c (w_clock w (w_reads w)) = false ->
      w_faults w (S (w_calls w)) = None ->
      (Forall (fun cp => ~ (cp_ContestID cp = contestID
                            /\ cp_ProblemID cp = problemID))
              (w_contest_problems w) ->
       err = Some ErrProblemNotInContest) /\
      ((exists cp, cp ∈ w_contest_problems w /\ cp_ContestID cp = contestID
                   /\ cp_ProblemID cp = problemID) ->
       err = None))).
Proof.
  destruct st as [w submissions]. cbn [st_world]. intros Hf Hfound.
  unfold MarkProblemComplete, FindByID, db_call.
  cbn [st_world st_submissions w_faults w_calls w_contests].
  rewrite Hf, Hfound. cbn [fmap option_fmap option_map row_of c_UserID c_Status].
  destruct (decide (c_UserID c = userID)) as [Hu | Hu].
  2:{ rewrite bool_decide_eq_false_2 by done. cbn [negb].
      eexists _, _. split; [reflexivity |]. repeat split; done. }
  rewrite bool_decide_eq_true_2 by done. cbn [negb].
  destruct (String.eqb_spec (c_Status c) ContestStatusActive) as [Hs | Hs];
    cbn [negb].
  2:{ eexists _, _. split; [reflexivity |]. repeat split; done. }
  unfold Now. cbn [w_clock w_reads].
  change (IsExpired (row_of c) (w_clock w (w_reads w)))
    with (IsExpired c (w_clock w (w_reads w))).
  destruct (IsExpired c (w_clock w (w_reads w))) eqn:Hexp.
  { eexists _, _. split; [reflexivity |]. repeat split; done. }
  unfold UpdateProblemStatus, db_call.
  cbn [w_faults w_calls w_contests w_contest_problems].
  destruct (w_faults w (S (w_calls w))) as [msg |] eqn:Hf2;
    cbn [fmap option_fmap option_map].
  { eexists _, _. split; [reflexivity |]. repeat split; done. }
  match goal with
  | |- context [len (filter ?P ?l) =? 0] =>
      destruct (Z.eqb_spec (len (filter P l)) 0) as [Hzero | Hsome]
  end.
  - eexists _, _. split; [reflexivity |].
    split; [done |]. split; [done |]. intros _ _. split; [done |].
    intros _ _. split; [done |].
    intros (cp & Hin & Hc & Hp). apply len_zero in Hzero.
    assert (cp ∈ filter (fun cp => cp_ContestID cp = contestID
                                   /\ cp_ProblemID cp = problemID)
                        (w_contest_problems w)) as Hcp
      by (by apply list_elem_of_filter).
    rewrite Hzero in Hcp. by inversion Hcp.
  - assert (Forall (fun cp => ~ (cp_ContestID cp = contestID
                                 /\ cp_ProblemID cp = problemID))
                   (w_contest_problems w) -> False) as Hheld.
    { intros Hnone. destruct Hsome. apply len_zero. by apply filter_none. }
    destruct isCompleted.
    + destruct (FindByUserAndProblem _ _ _) as [[[existing |] e] st0].
      * eexists _, _. split; [reflexivity |]. repeat split; done.
      * destruct (Now (st_world st0)) as [solvedAt w0].
        match goal with
        | |- context [CreateSubmission ?s ?st] =>
            destruct (CreateSubmission s st) as [e1 st1]
        end.
        eexists _, _. split; [reflexivity |]. repeat split; done.
    + eexists _, _. split; [reflexivity |]. repeat split; done.
Qed.

Lemma X18_MarkProblemComplete_checks_witness :
  (exists st',
     MarkProblemComplete 7%N 40%N 555%N true sampleStore
     = Some (Some ErrProblemNotInContest, st')) /\
  (exists st',
     MarkProblemComplete 8%N 40%N 100%N true sampleStore
     = Some (Some ErrForbidden, st')).
Proof.
  split.
  - destruct (X18_MarkProblemComplete_checks 7%N 40%N 555%N true sampleStore
                sampleContest eq_refl eq_refl)
      as (err & st' & Hret & _ & _ & Hown).
    destruct (Hown eq_refl eq_refl) as [_ Hrun].
    destruct (Hrun eq_refl eq_refl) as [Hnot _].
    rewrite Hnot in Hret.
    + by exists st'.
    + repeat constructor. cbn. intros [_ ?]. discriminate.
  - destruct (X18_MarkProblemComplete_checks 8%N 40%N 100%N true sampleStore
                sampleContest eq_refl eq_refl)
      as (err & st' & Hret & Hother & _).
    rewrite Hother in Hret by discriminate. by exists st'.
Defined.

(** X19. [GetActiveContest] never hands out a contest whose time is up as
    active. What it returns is the user's own contest; if that is still
    marked active, the clock had not passed its end when it was checked and
    nothing was written; otherwise it was completed on the way out, with
    the next reading of the clock as end time. When it returns neither a
    contest nor an error, the user has no active contest. *)
Theorem X19_GetActiveContest_result userID w contest err w' :
  GetActiveContest userID w = ((contest, err), w') ->
  w_contest_problems w' = w_contest_problems w /\
  (contest = None -> err = None -> activeRow userID w = None) /\
  (forall c, contest = Some c ->
     err = None /\ c_UserID c = userID /\
     (c_Status c = ContestStatusActive ->
      IsExpired c (w_clock w (w_reads w)) = false /\
      w_contests w' = w_contests w) /\
     (c_Status c <> ContestStatusActive ->
      c_Status c = ContestStatusCompleted /\
      c_EndedAt c = Some (w_clock w (S (w_reads w))))).
Proof.
  unfold GetActiveContest, FindActiveByUserID, db_call.
  destruct (w_faults w (w_calls w)); cbn [fmap option_fmap option_map].
  { intros [= <- <- <-]. done. }
  change (activeRow userID _) with (activeRow userID w).
  destruct (activeRow userID w) as [row |] eqn:Hrow.
  2:{ intros [= <- <- <-]. done. }
  apply activeRow_found in Hrow as (_ & Hu & Hs).
  unfold completeIfExpired, Now. cbn [w_clock w_reads].
  rewrite IsExpired_preloaded.
  destruct (IsExpired row (w_clock w (w_reads w))) eqn:Hexp.
  - unfold Update, db_call. cbn [w_faults w_calls].
    destruct (w_faults w (S (w_calls w))); cbn [fmap option_fmap option_map];
      intros [= <- <- <-]; cbn; (split; [done |]); (split; [done |]);
      intros c [= <-]; cbn; repeat split; done.
  - intros [= <- <- <-]. cbn. split; [done |]. split; [done |].
    intros c [= <-]. cbn. repeat split; done.
Qed.

Lemma X19_GetActiveContest_result_witness :
  exists c w',
    GetActiveContest 7%N (sampleWorld (31 * Minute))
    = ((Some c, None), w') /\
    c_Status c = ContestStatusCompleted /\
    c_EndedAt c = Some (31 * Minute + 1).
Proof.
  pose proof (X19_GetActiveContest_result 7%N (sampleWorld (31 * Minute)))
    as Hthm.
  assert ((fun x => (c_Status <$> fst x, snd x))
            (fst (GetActiveContest 7%N (sampleWorld (31 * Minute))))
          = (Some ContestStatusCompleted, None)) as Hrun
    by (vm_compute; reflexivity).
  destruct (GetActiveContest 7%N (sampleWorld (31 * Minute)))
    as [[[c |] err] w']; [| discriminate Hrun].
  cbn in Hrun. injection Hrun as Hs ->.
  destruct (Hthm (Some c) None w' eq_refl) as (_ & _ & Hc).
  destruct (Hc c eq_refl) as (_ & _ & _ & Hdone).
  destruct Hdone as [_ Hend]; [by rewrite Hs |].
  exists c, w'. split; [reflexivity |]. split; [exact Hs | exact Hend].
Defined.
